(** * The transaction dashboard script, [fastAPI_app/static/js/script.js]

    A shallow embedding of the browser script: the login continuation, the
    chart set-up, the WebSocket client with its four handlers, and the parts
    of the JavaScript run time the script calls ([JSON.parse], property
    reads, [substring], string conversion, array [push]/[shift], timers and
    the WebSocket life cycle). *)

From Stdlib Require Import String Ascii DecimalString.
From Stdlib Require Import NArith ZArith Lia Bool List.
Import ListNotations.

Set Implicit Arguments.
Set Warnings "-register-all".

(** ** JavaScript strings and values *)

(** A JavaScript string is a sequence of UTF-16 code units. *)
Definition jsstring := list N.

Definition ch (a : ascii) : N := N_of_ascii a.

(** The string whose code units are the characters of [s]. *)
Definition js (s : string) : jsstring := map ch (list_ascii_of_string s).

Definition dquote : N := 34.
Definition backslash : N := 92.

(** [jsq s] is [js s] with every apostrophe turned into a double quote; it
    keeps JSON texts readable. *)
Definition jsq (s : string) : jsstring :=
  map (fun c => if N.eqb c (ch "'") then dquote else c) (js s).

Definition jsstring_eqb (a b : jsstring) : bool :=
  if list_eq_dec N.eq_dec a b then true else false.

(** A number is kept as the decimal it was written as:
    [(-1)^num_neg * num_mant * 10^num_exp], with [num_mant] free of trailing
    zeros (and [num_exp = 0] for zero).  JavaScript stores the nearest
    binary64 instead; the script only copies and prints numbers, and the two
    agree on every decimal a binary64 holds exactly. *)
Record number := { num_neg : bool; num_mant : N; num_exp : Z }.

Inductive value :=
| VUndefined
| VNull
| VBool (b : bool)
| VNumber (n : number)
| VString (s : jsstring)
| VArray (elements : list value)
| VObject (members : list (jsstring * value)).

(** ** [JSON.parse] *)

Module JSON.

Local Open Scope N_scope.

Definition is_ws (c : N) : bool :=
  N.eqb c 9 || N.eqb c 10 || N.eqb c 13 || N.eqb c 32.

Fixpoint skip_ws (s : jsstring) : jsstring :=
  match s with
  | c :: r => if is_ws c then skip_ws r else s
  | [] => []
  end.

Definition is_digit (c : N) : bool := N.leb (ch "0") c && N.leb c (ch "9").

Definition hex_val (c : N) : option N :=
  if is_digit c then Some (c - ch "0")
  else if N.leb (ch "a") c && N.leb c (ch "f") then Some (c - ch "a" + 10)
  else if N.leb (ch "A") c && N.leb c (ch "F") then Some (c - ch "A" + 10)
  else None.

Definition hex4 (a b c d : N) : option N :=
  match hex_val a, hex_val b, hex_val c, hex_val d with
  | Some x, Some y, Some z, Some w => Some (((x * 16 + y) * 16 + z) * 16 + w)
  | _, _, _, _ => None
  end.

(** The character an escape letter stands for. *)
Definition escape (e : N) : option N :=
  if N.eqb e dquote then Some dquote
  else if N.eqb e backslash then Some backslash
  else if N.eqb e (ch "/") then Some (ch "/")
  else if N.eqb e (ch "b") then Some 8
  else if N.eqb e (ch "f") then Some 12
  else if N.eqb e (ch "n") then Some 10
  else if N.eqb e (ch "r") then Some 13
  else if N.eqb e (ch "t") then Some 9
  else None.

(** The characters of a string literal, read after its opening quote, and
    what follows the closing quote. *)
Fixpoint parse_chars (s : jsstring) : option (jsstring * jsstring) :=
  match s with
  | [] => None
  | c :: r =>
    if N.eqb c dquote then Some ([], r)
    else if N.eqb c backslash then
      match r with
      | [] => None
      | e :: r1 =>
        if N.eqb e (ch "u") then
          match r1 with
          | h1 :: h2 :: h3 :: h4 :: r2 =>
            match hex4 h1 h2 h3 h4 with
            | Some u =>
              match parse_chars r2 with
              | Some (str, rest) => Some (u :: str, rest)
              | None => None
              end
            | None => None
            end
          | _ => None
          end
        else
          match escape e with
          | Some x =>
            match parse_chars r1 with
            | Some (str, rest) => Some (x :: str, rest)
            | None => None
            end
          | None => None
          end
      end
    else if N.ltb c 32 then None
    else
      match parse_chars r with
      | Some (str, rest) => Some (c :: str, rest)
      | None => None
      end
  end.

(** The longest run of decimal digits at the head of [s], as digit values. *)
Fixpoint span_digits (s : jsstring) : list N * jsstring :=
  match s with
  | c :: r =>
    if is_digit c then let (ds, rest) := span_digits r in (c - ch "0" :: ds, rest)
    else ([], s)
  | [] => ([], [])
  end.

Definition N_of_digits (ds : list N) : N :=
  fold_left (fun acc d => acc * 10 + d) ds 0.

Fixpoint drop_zeros (ds : list N) : list N :=
  match ds with
  | d :: r => if N.eqb d 0 then drop_zeros r else ds
  | [] => []
  end.

(** The number with digits [ds], scaled by [10^e]. *)
Definition mk_number (neg : bool) (ds : list N) (e : Z) : number :=
  let sig := rev (drop_zeros (rev ds)) in
  let m := N_of_digits sig in
  if N.eqb m 0 then {| num_neg := neg; num_mant := 0; num_exp := 0 |}
  else {| num_neg := neg; num_mant := m;
          num_exp := (e + Z.of_nat (length ds - length sig))%Z |}.

(** [int], after the optional minus sign: a lone [0], or digits that do not
    start with [0]. *)
Definition parse_int (s : jsstring) : option (list N * jsstring) :=
  match s with
  | c :: r =>
    if N.eqb c (ch "0") then Some ([0%N], r)
    else if is_digit c then Some (span_digits s)
    else None
  | [] => None
  end.

Definition parse_frac (s : jsstring) : option (list N * jsstring) :=
  match s with
  | c :: r =>
    if N.eqb c (ch ".") then
      match span_digits r with
      | ([], _) => None
      | (ds, rest) => Some (ds, rest)
      end
    else Some ([], s)
  | [] => Some ([], [])
  end.

Definition parse_exp (s : jsstring) : option (Z * jsstring) :=
  match s with
  | c :: r =>
    if N.eqb c (ch "e") || N.eqb c (ch "E") then
      let (sgn, r1) :=
        match r with
        | x :: r' =>
          if N.eqb x (ch "-") then (true, r')
          else if N.eqb x (ch "+") then (false, r')
          else (false, r)
        | [] => (false, r)
        end in
      match span_digits r1 with
      | ([], _) => None
      | (ds, rest) =>
        let e := Z.of_N (N_of_digits ds) in
        Some (if sgn then (- e)%Z else e, rest)
      end
    else Some (0%Z, s)
  | [] => Some (0%Z, [])
  end.

Definition parse_number (s : jsstring) : option (number * jsstring) :=
  let (neg, s1) :=
    match s with
    | c :: r => if N.eqb c (ch "-") then (true, r) else (false, s)
    | [] => (false, s)
    end in
  match parse_int s1 with
  | None => None
  | Some (ints, s2) =>
    match parse_frac s2 with
    | None => None
    | Some (fracs, s3) =>
      match parse_exp s3 with
      | None => None
      | Some (e, s4) =>
        Some (mk_number neg (ints ++ fracs) (e - Z.of_nat (length fracs))%Z, s4)
      end
    end
  end.

(** [strip_prefix p s] is what follows [p] in [s]. *)
Fixpoint strip_prefix (p s : jsstring) : option jsstring :=
  match p, s with
  | [], _ => Some s
  | a :: p', b :: s' => if N.eqb a b then strip_prefix p' s' else None
  | _ :: _, [] => None
  end.

Inductive presult (A : Type) :=
| POk (a : A) (rest : jsstring)
| PErr
| PFuel.
Arguments PErr {A}.
Arguments PFuel {A}.

(** The value grammar.  [fuel] bounds the depth of the recursion;
    [parse_value_fuel] below shows that the amount [JSON_parse] hands in is
    never used up. *)
Fixpoint parse_value (fuel : nat) (s : jsstring) : presult value :=
  match fuel with
  | O => PFuel
  | S f =>
    match skip_ws s with
    | [] => PErr
    | c :: r =>
      if N.eqb c (ch "{") then
        match skip_ws r with
        | [] => PErr
        | c1 :: r1 =>
          if N.eqb c1 (ch "}") then POk (VObject []) r1
          else
            match parse_members f (c1 :: r1) with
            | POk ms rest => POk (VObject ms) rest
            | PErr => PErr
            | PFuel => PFuel
            end
        end
      else if N.eqb c (ch "[") then
        match skip_ws r with
        | [] => PErr
        | c1 :: r1 =>
          if N.eqb c1 (ch "]") then POk (VArray []) r1
          else
            match parse_elements f (c1 :: r1) with
            | POk vs rest => POk (VArray vs) rest
            | PErr => PErr
            | PFuel => PFuel
            end
        end
      else if N.eqb c dquote then
        match parse_chars r with
        | Some (str, rest) => POk (VString str) rest
        | None => PErr
        end
      else if N.eqb c (ch "-") || is_digit c then
        match parse_number (c :: r) with
        | Some (n, rest) => POk (VNumber n) rest
        | None => PErr
        end
      else
        match strip_prefix (js "true") (c :: r) with
        | Some rest => POk (VBool true) rest
        | None =>
          match strip_prefix (js "false") (c :: r) with
          | Some rest => POk (VBool false) rest
          | None =>
            match strip_prefix (js "null") (c :: r) with
            | Some rest => POk VNull rest
            | None => PErr
            end
          end
        end
    end
  end

with parse_elements (fuel : nat) (s : jsstring) : presult (list value) :=
  match fuel with
  | O => PFuel
  | S f =>
    match parse_value f s with
    | POk v r =>
      match skip_ws r with
      | [] => PErr
      | c :: r1 =>
        if N.eqb c (ch ",") then
          match parse_elements f r1 with
          | POk vs rest => POk (v :: vs) rest
          | PErr => PErr
          | PFuel => PFuel
          end
        else if N.eqb c (ch "]") then POk [v] r1
        else PErr
      end
    | PErr => PErr
    | PFuel => PFuel
    end
  end

with parse_members (fuel : nat) (s : jsstring)
  : presult (list (jsstring * value)) :=
  match fuel with
  | O => PFuel
  | S f =>
    match skip_ws s with
    | [] => PErr
    | q :: r =>
      if N.eqb q dquote then
        match parse_chars r with
        | None => PErr
        | Some (k, r1) =>
          match skip_ws r1 with
          | [] => PErr
          | c :: r2 =>
            if N.eqb c (ch ":") then
              match parse_value f r2 with
              | POk v r3 =>
                match skip_ws r3 with
                | [] => PErr
                | c1 :: r4 =>
                  if N.eqb c1 (ch ",") then
                    match parse_members f r4 with
                    | POk ms rest => POk ((k, v) :: ms) rest
                    | PErr => PErr
                    | PFuel => PFuel
                    end
                  else if N.eqb c1 (ch "}") then POk [(k, v)] r4
                  else PErr
                end
              | PErr => PErr
              | PFuel => PFuel
              end
            else PErr
          end
        end
      else PErr
    end
  end.

Definition fuel_for (s : jsstring) : nat := (2 * length s + 1)%nat.

(** [JSON.parse(text)]: the value, or [None] for the [SyntaxError]. *)
Definition parse (text : jsstring) : option value :=
  match parse_value (fuel_for text) text with
  | POk v rest =>
    match skip_ws rest with
    | [] => Some v
    | _ :: _ => None
    end
  | PErr => None
  | PFuel => None
  end.

End JSON.

(** ** The rest of the run time the script calls *)

Inductive exn := SyntaxError | TypeError.

Inductive completion (A : Type) :=
| Normal (a : A)
| Throw (e : exn).
Arguments Throw {A}.

(** The own property [k] of an object built by [JSON.parse]; of two members
    with one key the later one stays. *)
Fixpoint lookup (k : jsstring) (ms : list (jsstring * value)) : option value :=
  match ms with
  | [] => None
  | (k', v) :: r =>
    match lookup k r with
    | Some v' => Some v'
    | None => if jsstring_eqb k' k then Some v else None
    end
  end.

(** [v.k], for the property names the script reads ([transaction_id],
    [transaction_details], [amount], [access_token], [detail]): none of them
    is an index, [length], or a property of a built-in prototype, so only an
    object built by [JSON.parse] can have one.  Reading a property of
    [undefined] or [null] throws. *)
Definition get (v : value) (k : jsstring) : completion value :=
  match v with
  | VUndefined | VNull => Throw TypeError
  | VObject ms =>
    Normal (match lookup k ms with Some x => x | None => VUndefined end)
  | VBool _ | VNumber _ | VString _ | VArray _ => Normal VUndefined
  end.

(** [v.substring(a, b)] for [a <= b]: only a string has the method; on any
    other value the call throws. *)
Definition substring (v : value) (a b : nat) : completion jsstring :=
  match v with
  | VString s => Normal (skipn a (firstn b s))
  | _ => Throw TypeError
  end.

Definition digits (n : N) : jsstring := js (NilZero.string_of_uint (N.to_uint n)).

(** [Number::toString], radix 10, on the decimal: [k] digits, the decimal
    point after the [n]-th. *)
Definition number_to_string (x : number) : jsstring :=
  if N.eqb (num_mant x) 0 then js "0"
  else
    let ds := digits (num_mant x) in
    let k := Z.of_nat (length ds) in
    let n := (k + num_exp x)%Z in
    (if num_neg x then js "-" else []) ++
    (if (k <=? n)%Z && (n <=? 21)%Z then ds ++ repeat (ch "0") (Z.to_nat (n - k))
     else if (0 <? n)%Z && (n <=? 21)%Z then
       firstn (Z.to_nat n) ds ++ js "." ++ skipn (Z.to_nat n) ds
     else if (-6 <? n)%Z && (n <=? 0)%Z then
       js "0." ++ repeat (ch "0") (Z.to_nat (- n)) ++ ds
     else
       let e := (n - 1)%Z in
       let es := (if (e <? 0)%Z then js "-" else js "+")
                 ++ digits (Z.to_N (Z.abs e)) in
       match ds with
       | [] => []
       | [d] => d :: js "e" ++ es
       | d :: r => d :: js "." ++ r ++ js "e" ++ es
       end).

Fixpoint join (sep : jsstring) (l : list jsstring) : jsstring :=
  match l with
  | [] => []
  | [x] => x
  | x :: r => x ++ sep ++ join sep r
  end.

(** [ToString(v)], as string concatenation and template literals apply it,
    for the values whose conversion cannot fail: every primitive, and the
    objects and arrays that hold no member named [toString] of their
    own. *)
Fixpoint ToString (v : value) : jsstring :=
  match v with
  | VUndefined => js "undefined"
  | VNull => js "null"
  | VBool true => js "true"
  | VBool false => js "false"
  | VNumber n => number_to_string n
  | VString s => s
  | VArray l =>
    join (js ",")
         (map (fun x => match x with
                        | VUndefined | VNull => []
                        | _ => ToString x
                        end) l)
  | VObject _ => js "[object Object]"
  end.

(** ** The page *)

Inductive readyState := CONNECTING | OPEN | CLOSING | CLOSED.

(** A socket made by [new WebSocket(url)].  [CLOSED] is entered when the
    close event is dispatched. *)
Record WebSocket := { ws_url : jsstring; ws_readyState : readyState }.

(** A pending [setTimeout(connectWebSocket, delay)], set at [timeout_set_at]
    on the page's clock (milliseconds). *)
Record Timeout := { timeout_set_at : Z; timeout_delay : Z }.

(** The chart: [labels] is [data.labels], [points] is [data.datasets[0].data]
    and [drawn] is what the canvas shows.  The configuration constants (type,
    colours, axis titles) play no part in the script's logic. *)
Record Chart := {
  labels : list jsstring;
  points : list value;
  drawn : list jsstring * list value }.

Inductive console_entry :=
| Log (msg : jsstring)
| Error (msg : jsstring)
| Uncaught (e : exn).

(** The two globals of the script, the parts of the document and of
    [window.location] it touches, and the browser's sockets, timers, console
    and clock. *)
Record page := {
  accessToken : value;
  transactionChart : option Chart;
  login_status_innerText : jsstring;
  login_form_display : jsstring;
  chart_container_display : jsstring;
  location_protocol : jsstring;
  location_host : jsstring;
  sockets : list WebSocket;
  timeouts : list Timeout;
  console : list console_entry;
  clock : Z }.

Definition set_accessToken (v : value) (s : page) : page :=
  {| accessToken := v; transactionChart := transactionChart s;
     login_status_innerText := login_status_innerText s;
     login_form_display := login_form_display s;
     chart_container_display := chart_container_display s;
     location_protocol := location_protocol s; location_host := location_host s;
     sockets := sockets s; timeouts := timeouts s; console := console s;
     clock := clock s |}.

Definition set_transactionChart (c : option Chart) (s : page) : page :=
  {| accessToken := accessToken s; transactionChart := c;
     login_status_innerText := login_status_innerText s;
     login_form_display := login_form_display s;
     chart_container_display := chart_container_display s;
     location_protocol := location_protocol s; location_host := location_host s;
     sockets := sockets s; timeouts := timeouts s; console := console s;
     clock := clock s |}.

Definition set_login_status_innerText (t : jsstring) (s : page) : page :=
  {| accessToken := accessToken s; transactionChart := transactionChart s;
     login_status_innerText := t;
     login_form_display := login_form_display s;
     chart_container_display := chart_container_display s;
     location_protocol := location_protocol s; location_host := location_host s;
     sockets := sockets s; timeouts := timeouts s; console := console s;
     clock := clock s |}.

Definition set_login_form_display (t : jsstring) (s : page) : page :=
  {| accessToken := accessToken s; transactionChart := transactionChart s;
     login_status_innerText := login_status_innerText s;
     login_form_display := t;
     chart_container_display := chart_container_display s;
     location_protocol := location_protocol s; location_host := location_host s;
     sockets := sockets s; timeouts := timeouts s; console := console s;
     clock := clock s |}.

Definition set_chart_container_display (t : jsstring) (s : page) : page :=
  {| accessToken := accessToken s; transactionChart := transactionChart s;
     login_status_innerText := login_status_innerText s;
     login_form_display := login_form_display s;
     chart_container_display := t;
     location_protocol := location_protocol s; location_host := location_host s;
     sockets := sockets s; timeouts := timeouts s; console := console s;
     clock := clock s |}.

Definition set_sockets (l : list WebSocket) (s : page) : page :=
  {| accessToken := accessToken s; transactionChart := transactionChart s;
     login_status_innerText := login_status_innerText s;
     login_form_display := login_form_display s;
     chart_container_display := chart_container_display s;
     location_protocol := location_protocol s; location_host := location_host s;
     sockets := l; timeouts := timeouts s; console := console s;
     clock := clock s |}.

Definition set_timeouts (l : list Timeout) (s : page) : page :=
  {| accessToken := accessToken s; transactionChart := transactionChart s;
     login_status_innerText := login_status_innerText s;
     login_form_display := login_form_display s;
     chart_container_display := chart_container_display s;
     location_protocol := location_protocol s; location_host := location_host s;
     sockets := sockets s; timeouts := l; console := console s;
     clock := clock s |}.

Definition set_console (l : list console_entry) (s : page) : page :=
  {| accessToken := accessToken s; transactionChart := transactionChart s;
     login_status_innerText := login_status_innerText s;
     login_form_display := login_form_display s;
     chart_container_display := chart_container_display s;
     location_protocol := location_protocol s; location_host := location_host s;
     sockets := sockets s; timeouts := timeouts s; console := l;
     clock := clock s |}.

Definition set_clock (t : Z) (s : page) : page :=
  {| accessToken := accessToken s; transactionChart := transactionChart s;
     login_status_innerText := login_status_innerText s;
     login_form_display := login_form_display s;
     chart_container_display := chart_container_display s;
     location_protocol := location_protocol s; location_host := location_host s;
     sockets := sockets s; timeouts := timeouts s; console := console s;
     clock := t |}.

(** ** Statements: a state and exception monad over the page *)

Definition M (A : Type) : Type := page -> completion A * page.

Definition ret {A} (a : A) : M A := fun s => (Normal a, s).

Definition bind {A B} (m : M A) (k : A -> M B) : M B :=
  fun s =>
    match m s with
    | (Normal a, s') => k a s'
    | (Throw e, s') => (Throw e, s')
    end.

Definition lift {A} (c : completion A) : M A := fun s => (c, s).

Definition read {A} (f : page -> A) : M A := fun s => (Normal (f s), s).

Definition modify (f : page -> page) : M unit := fun s => (Normal tt, f s).

Declare Scope js_scope.
Delimit Scope js_scope with js.
Notation "x <- m ;; k" := (bind m (fun x => k))
  (at level 61, m at next level, right associativity) : js_scope.
Notation "m ;; k" := (bind m (fun _ => k))
  (at level 61, right associativity) : js_scope.
Local Open Scope js_scope.

(** ** The script *)

Definition JSON_parse (text : jsstring) : M value :=
  lift (match JSON.parse text with
        | Some v => Normal v
        | None => Throw SyntaxError
        end).

Definition console_log (msg : jsstring) : M unit :=
  modify (fun s => set_console (console s ++ [Log msg]) s).

Definition console_error (msg : jsstring) : M unit :=
  modify (fun s => set_console (console s ++ [Error msg]) s).

(** The global [transactionChart]; it is [undefined] until [initializeChart]
    ran, and reading a property of it then throws. *)
Definition the_chart : M Chart :=
  fun s =>
    match transactionChart s with
    | Some c => (Normal c, s)
    | None => (Throw TypeError, s)
    end.

Definition put_chart (c : Chart) : M unit :=
  modify (set_transactionChart (Some c)).

(** [new Chart(ctx, {type: 'bar', data: {labels: [], datasets: [{data: []}]}})]:
    both arrays empty, an empty chart on the canvas.  This is the
    constructor on a canvas that is free, as it is at the first login; the
    charting library refuses a canvas that already carries a chart, and
    the statements about a successful login are made for a page without
    one. *)
Definition new_Chart : Chart :=
  {| labels := []; points := []; drawn := ([], []) |}.

Definition initializeChart : M unit :=
  modify (set_transactionChart (Some new_Chart)).

(** [transactionChart.data.labels.push(label)] *)
Definition labels_push (label : jsstring) : M unit :=
  c <- the_chart ;;
  put_chart {| labels := labels c ++ [label]; points := points c;
               drawn := drawn c |}.

(** [transactionChart.data.datasets[0].data.push(amount)] *)
Definition points_push (amount : value) : M unit :=
  c <- the_chart ;;
  put_chart {| labels := labels c; points := points c ++ [amount];
               drawn := drawn c |}.

(** [transactionChart.data.labels.length] *)
Definition labels_length : M nat :=
  c <- the_chart ;; ret (length (labels c)).

(** [transactionChart.data.labels.shift()] *)
Definition labels_shift : M unit :=
  c <- the_chart ;;
  put_chart {| labels := tl (labels c); points := points c; drawn := drawn c |}.

(** [transactionChart.data.datasets[0].data.shift()] *)
Definition points_shift : M unit :=
  c <- the_chart ;;
  put_chart {| labels := labels c; points := tl (points c); drawn := drawn c |}.

(** Modelled from the spec: [Chart.prototype.update] belongs to the charting
    library, which is not part of the repository.  The render step replaces
    the widget's label sequence and value sequence with the current contents
    of the buffer, in order, and redraws. *)
Definition chart_update : M unit :=
  c <- the_chart ;;
  put_chart {| labels := labels c; points := points c;
               drawn := (labels c, points c) |}.

(** [new WebSocket(wsUrl)]: one more socket, connecting.  This is the
    constructor on a URL it accepts; it refuses one with a fragment, which
    takes a token with a [#] in it. *)
Definition new_WebSocket (wsUrl : jsstring) : M unit :=
  modify (fun s =>
    set_sockets (sockets s ++ [{| ws_url := wsUrl; ws_readyState := CONNECTING |}]) s).

(** [setTimeout(connectWebSocket, delay)]; the callback is the only one the
    script ever registers. *)
Definition setTimeout_connectWebSocket (delay : Z) : M unit :=
  modify (fun s =>
    set_timeouts
      (timeouts s ++ [{| timeout_set_at := clock s; timeout_delay := delay |}]) s).

Fixpoint set_nth {A} (i : nat) (x : A) (l : list A) : list A :=
  match l, i with
  | [], _ => []
  | _ :: r, O => x :: r
  | y :: r, S j => y :: set_nth j x r
  end.

Definition remove_nth {A} (i : nat) (l : list A) : list A :=
  firstn i l ++ skipn (S i) l.

(** [ws.close()] on the [i]-th socket: starts the closing handshake unless
    the socket is closing or closed already. *)
Definition ws_close (i : nat) : M unit :=
  modify (fun s =>
    match nth_error (sockets s) i with
    | Some w =>
      match ws_readyState w with
      | CONNECTING | OPEN =>
        set_sockets
          (set_nth i {| ws_url := ws_url w; ws_readyState := CLOSING |}
                   (sockets s)) s
      | CLOSING | CLOSED => s
      end
    | None => s
    end).

Definition wsUrl_of (s : page) : jsstring :=
  let wsProtocol :=
    if jsstring_eqb (location_protocol s) (js "https:") then js "wss"
    else js "ws" in
  wsProtocol ++ js "://" ++ location_host s
    ++ js "/ws/transactions?token=" ++ ToString (accessToken s).

Definition onopen : M unit :=
  console_log (js "WebSocket connection established.").

Definition onmessage (event_data : jsstring) : M unit :=
  transaction <- JSON_parse event_data ;;
  id <- lift (get transaction (js "transaction_id")) ;;
  label <- lift (substring id 0 8) ;;
  details <- lift (get transaction (js "transaction_details")) ;;
  amount <- lift (get details (js "amount")) ;;
  labels_push label ;;
  points_push amount ;;
  len <- labels_length ;;
  (if Nat.ltb 20 len then labels_shift ;; points_shift else ret tt) ;;
  chart_update.

Definition onclose : M unit :=
  console_log
    (js "WebSocket connection closed. Attempting to reconnect in 5 seconds...") ;;
  setTimeout_connectWebSocket 5000.

Definition onerror (ws : nat) : M unit :=
  console_error (js "WebSocket error:") ;;
  ws_close ws.

(** [connectWebSocket]; the socket it makes carries the four handlers above,
    [onerror] closed over the socket itself. *)
Definition connectWebSocket : M unit :=
  wsUrl <- read wsUrl_of ;;
  new_WebSocket wsUrl.

(** [login], from the point where the response of [POST /token] has arrived:
    [status] is [response.status] and [body] the text [response.json()]
    parses.  What comes before (reading the two input fields, sending the
    request) changes nothing on the page. *)
Definition login (status : Z) (body : jsstring) : M unit :=
  data <- JSON_parse body ;;
  if Z.eqb status 200 then
    token <- lift (get data (js "access_token")) ;;
    modify (set_accessToken token) ;;
    modify (set_login_status_innerText (js "Login successful!")) ;;
    modify (set_login_form_display (js "none")) ;;
    modify (set_chart_container_display (js "block")) ;;
    initializeChart ;;
    connectWebSocket
  else
    detail <- lift (get data (js "detail")) ;;
    modify (set_login_status_innerText (js "Login failed: " ++ ToString detail)).

(** ** The event loop *)

(** What the browser hands to the script. *)
Inductive event :=
| LoginResponse (status : Z) (body : jsstring)
| WsOpen (ws : nat)
| WsMessage (ws : nat) (event_data : jsstring)
| WsError (ws : nat)
| WsClose (ws : nat)
| TimerFire (timer : nat)
| Tick (ms : Z).

(** A handler runs to its end or to its first exception; the browser reports
    an exception nobody caught and goes on. *)
Definition dispatch (h : M unit) (s : page) : page :=
  match h s with
  | (Normal _, s') => s'
  | (Throw e, s') => set_console (console s' ++ [Uncaught e]) s'
  end.

Definition set_readyState (i : nat) (r : readyState) (s : page) : page :=
  match nth_error (sockets s) i with
  | Some w =>
    set_sockets (set_nth i {| ws_url := ws_url w; ws_readyState := r |} (sockets s)) s
  | None => s
  end.

Definition readyState_of (i : nat) (s : page) : option readyState :=
  option_map ws_readyState (nth_error (sockets s) i).

(** One turn of the event loop, [None] when the browser cannot deliver the
    event: a socket opens once, while connecting; messages come from an open
    socket; a socket closes once; a timer fires once, not before its delay
    has passed; the clock does not run backwards. *)
Definition step (ev : event) (s : page) : option page :=
  match ev with
  | LoginResponse status body => Some (dispatch (login status body) s)
  | WsOpen i =>
    match readyState_of i s with
    | Some CONNECTING => Some (dispatch onopen (set_readyState i OPEN s))
    | _ => None
    end
  | WsMessage i event_data =>
    match readyState_of i s with
    | Some OPEN => Some (dispatch (onmessage event_data) s)
    | _ => None
    end
  | WsError i =>
    match readyState_of i s with
    | Some CLOSED | None => None
    | Some _ => Some (dispatch (onerror i) s)
    end
  | WsClose i =>
    match readyState_of i s with
    | Some CLOSED | None => None
    | Some _ => Some (dispatch onclose (set_readyState i CLOSED s))
    end
  | TimerFire j =>
    match nth_error (timeouts s) j with
    | Some t =>
      if (timeout_set_at t + timeout_delay t <=? clock s)%Z
      then Some (dispatch connectWebSocket (set_timeouts (remove_nth j (timeouts s)) s))
      else None
    | None => None
    end
  | Tick ms =>
    if (0 <=? ms)%Z then Some (set_clock (clock s + ms) s) else None
  end.

Fixpoint run (evs : list event) (s : page) : option page :=
  match evs with
  | [] => Some s
  | ev :: rest =>
    match step ev s with
    | Some s' => run rest s'
    | None => None
    end
  end.

(** The page as the script's top level leaves it: [accessToken = ""],
    [transactionChart] undefined, nothing connected. *)
Definition initial_page (status form container protocol host : jsstring) : page :=
  {| accessToken := VString [];
     transactionChart := None;
     login_status_innerText := status;
     login_form_display := form;
     chart_container_display := container;
     location_protocol := protocol;
     location_host := host;
     sockets := [];
     timeouts := [];
     console := [];
     clock := 0 |}.

(** ** Notions the statements use *)

(** What lines 79-81 of the handler compute from a message: the label and
    the amount, or the exception. *)
Definition chart_point (event_data : jsstring) : completion (jsstring * value) :=
  match JSON.parse event_data with
  | None => Throw SyntaxError
  | Some transaction =>
    match get transaction (js "transaction_id") with
    | Throw e => Throw e
    | Normal id =>
      match substring id 0 8 with
      | Throw e => Throw e
      | Normal label =>
        match get transaction (js "transaction_details") with
        | Throw e => Throw e
        | Normal details =>
          match get details (js "amount") with
          | Throw e => Throw e
          | Normal amount => Normal (label, amount)
          end
        end
      end
    end
  end.

(** The chart after lines 84-93 ran on it. *)
Definition append_point (label : jsstring) (amount : value) (c : Chart) : Chart :=
  let ls := labels c ++ [label] in
  let ps := points c ++ [amount] in
  if Nat.ltb 20 (length ls)
  then {| labels := tl ls; points := tl ps; drawn := (tl ls, tl ps) |}
  else {| labels := ls; points := ps; drawn := (ls, ps) |}.

(** The last 20 elements of a list. *)
Definition window {A} (l : list A) : list A := skipn (length l - 20) l.

(** The chart points the messages of a trace append, in arrival order. *)
Definition appended (evs : list event) : list (jsstring * value) :=
  flat_map (fun ev =>
              match ev with
              | WsMessage _ event_data =>
                match chart_point event_data with
                | Normal p => [p]
                | Throw _ => []
                end
              | _ => []
              end) evs.

Definition is_login (ev : event) : bool :=
  match ev with LoginResponse _ _ => true | _ => false end.

(** A trace of socket, timer and clock events only. *)
Definition no_login (evs : list event) : bool := forallb (fun ev => negb (is_login ev)) evs.

Definition buffer_labels (s : page) : list jsstring :=
  match transactionChart s with Some c => labels c | None => [] end.

Definition buffer_points (s : page) : list value :=
  match transactionChart s with Some c => points c | None => [] end.

(** What the canvas shows. *)
Definition visible (s : page) : option (list jsstring * list value) :=
  option_map drawn (transactionChart s).

(** The chart holds the last 20 of the points [pts]. *)
Definition holds_window (pts : list (jsstring * value)) (c : Chart) : Prop :=
  labels c = window (map fst pts) /\ points c = window (map snd pts).

Definition lengths_agree (s : page) : Prop :=
  length (buffer_labels s) = length (buffer_points s).

Definition unparseable (event_data : jsstring) : Prop :=
  JSON.parse event_data = None.

(** The parsed message has no string under [transaction_id]. *)
Definition lacks_id (event_data : jsstring) : Prop :=
  exists transaction,
    JSON.parse event_data = Some transaction /\
    forall id, get transaction (js "transaction_id") <> Normal (VString id).

(** The parsed message has its id but nothing (or [null]) under
    [transaction_details]. *)
Definition lacks_details (event_data : jsstring) : Prop :=
  exists transaction id,
    JSON.parse event_data = Some transaction /\
    get transaction (js "transaction_id") = Normal (VString id) /\
    (get transaction (js "transaction_details") = Normal VUndefined \/
     get transaction (js "transaction_details") = Normal VNull).

(** The parsed message has its id and its details, and the details have no
    [amount]. *)
Definition lacks_amount (event_data : jsstring) (id : jsstring) : Prop :=
  exists transaction details,
    JSON.parse event_data = Some transaction /\
    get transaction (js "transaction_id") = Normal (VString id) /\
    get transaction (js "transaction_details") = Normal details /\
    get details (js "amount") = Normal VUndefined.

Definition malformed (event_data : jsstring) : Prop :=
  unparseable event_data \/ lacks_id event_data \/ lacks_details event_data \/
  exists id, lacks_amount event_data id.

Definition is_live (w : WebSocket) : bool :=
  match ws_readyState w with CLOSED => false | _ => true end.

Definition is_open (w : WebSocket) : bool :=
  match ws_readyState w with OPEN => true | _ => false end.

(** Sockets whose close event is still to come. *)
Definition live_count (s : page) : nat := length (filter is_live (sockets s)).

Definition open_count (s : page) : nat := length (filter is_open (sockets s)).

Definition count_events (p : event -> bool) (evs : list event) : nat :=
  length (filter p evs).

Definition is_close (ev : event) : bool :=
  match ev with WsClose _ => true | _ => false end.

Definition is_fire (ev : event) : bool :=
  match ev with TimerFire _ => true | _ => false end.

(** The clock readings at which the close events of a run were handled. *)
Fixpoint close_times (evs : list event) (s : page) : list Z :=
  match evs with
  | [] => []
  | ev :: rest =>
    match step ev s with
    | Some s1 => (if is_close ev then [clock s] else []) ++ close_times rest s1
    | None => []
    end
  end.

Definition with_state (w : WebSocket) (r : readyState) : WebSocket :=
  {| ws_url := ws_url w; ws_readyState := r |}.

(** Every socket but at most one is closed, and a reconnect is pending
    exactly when all are. *)
Definition single_lifeline (s : page) : Prop :=
  live_count s + length (timeouts s) = 1.

(** Where there is a socket or a timer, there is a chart. *)
Definition client_has_chart (s : page) : Prop :=
  sockets s <> [] \/ timeouts s <> [] -> transactionChart s <> None.

(** ** Pages and traces to try things on *)

(** A page to try things on: served over plain http from [localhost:8000],
    the login form shown and the chart container hidden. *)
Definition start_page : page :=
  initial_page [] (js "block") (js "none") (js "http:") (js "localhost:8000").

(** The page after the first successful login. *)
Definition logged_in_page : page :=
  dispatch (login 200 (jsq "{'access_token':'abc123'}")) start_page.

Definition message (id amount : string) : jsstring :=
  jsq ("{'transaction_id':'" ++ id ++ "','transaction_details':{'amount':"
       ++ amount ++ "}}").

Definition sample_trace : list event :=
  [WsOpen 0; WsMessage 0 (message "abcdef1234567890" "42.5");
   WsMessage 0 (js "oops"); WsMessage 0 (message "0123456789" "7")].

Definition after_sample_trace : page :=
  Eval vm_compute in
    match run sample_trace logged_in_page with
    | Some s => s
    | None => logged_in_page
    end.

Definition numbered_message (k : nat) : jsstring :=
  jsq "{'transaction_id':'tx-" ++ digits (N.of_nat k)
  ++ jsq "-0000','transaction_details':{'amount':" ++ digits (N.of_nat (2 * k))
  ++ js "}}".

Definition long_trace : list event :=
  WsOpen 0 :: map (fun k => WsMessage 0 (numbered_message k)) (seq 0 25).

Definition after_long_trace : page :=
  Eval vm_compute in
    match run long_trace logged_in_page with
    | Some s => s
    | None => logged_in_page
    end.

Definition session_trace : list event :=
  LoginResponse 200 (jsq "{'access_token':'abc123'}") :: long_trace.

Definition chart_page : page := set_transactionChart (Some new_Chart) start_page.

Definition reconnect_trace : list event :=
  [WsOpen 0; WsError 0; WsClose 0; Tick 5000].

Definition after_reconnect_trace : page :=
  Eval vm_compute in
    match run reconnect_trace logged_in_page with
    | Some s => s
    | None => logged_in_page
    end.

Definition after_reconnect : page :=
  Eval vm_compute in
    match step (TimerFire 0) after_reconnect_trace with
    | Some s => s
    | None => after_reconnect_trace
    end.

Definition after_reconnect_alone : page :=
  Eval vm_compute in
    match run reconnect_trace (dispatch connectWebSocket chart_page) with
    | Some s => s
    | None => chart_page
    end.

Definition delivery_trace : list event :=
  [LoginResponse 200 (jsq "{'access_token':'abc123'}"); WsOpen 0].

Definition before_delivery : page :=
  Eval vm_compute in
    match run delivery_trace start_page with
    | Some s => s
    | None => start_page
    end.

(** ** The request [login] sends *)

Module URI.

Local Open Scope N_scope.

Definition is_alpha (c : N) : bool :=
  (N.leb (ch "A") c && N.leb c (ch "Z")) || (N.leb (ch "a") c && N.leb c (ch "z")).

(** [uriMark]: [- _ . ! ~ * ' ( )] *)
Definition is_mark (c : N) : bool := existsb (N.eqb c) (js "-_.!~*'()").

(** The characters [encodeURIComponent] leaves as they are. *)
Definition is_unescaped (c : N) : bool :=
  is_alpha c || JSON.is_digit c || is_mark c.

Definition is_lead (c : N) : bool := N.leb 55296 c && N.leb c 56319.

Definition is_trail (c : N) : bool := N.leb 56320 c && N.leb c 57343.

Definition hex_digit (d : N) : N :=
  if N.ltb d 10 then ch "0" + d else ch "A" + (d - 10).

(** The escape of one octet: a percent sign and two upper-case hex digits. *)
Definition percent (b : N) : jsstring :=
  [ch "%"; hex_digit (b / 16); hex_digit (b mod 16)].

(** The UTF-8 octets of a code point. *)
Definition utf8 (cp : N) : list N :=
  if N.ltb cp 128 then [cp]
  else if N.ltb cp 2048 then [192 + cp / 64; 128 + cp mod 64]
  else if N.ltb cp 65536 then
    [224 + cp / 4096; 128 + (cp / 64) mod 64; 128 + cp mod 64]
  else
    [240 + cp / 262144; 128 + (cp / 4096) mod 64; 128 + (cp / 64) mod 64;
     128 + cp mod 64].

Definition escape_code_point (cp : N) : jsstring := flat_map percent (utf8 cp).

(** The code point of a surrogate pair. *)
Definition pair_code_point (lead trail : N) : N :=
  (lead - 55296) * 1024 + (trail - 56320) + 65536.

(** [encodeURIComponent(s)]; [None] is the [URIError] an unpaired surrogate
    raises. *)
Fixpoint encodeURIComponent (s : jsstring) : option jsstring :=
  match s with
  | [] => Some []
  | c :: r =>
    if is_unescaped c then option_map (cons c) (encodeURIComponent r)
    else if is_trail c then None
    else if is_lead c then
      match r with
      | [] => None
      | c2 :: r2 =>
        if is_trail c2
        then option_map (app (escape_code_point (pair_code_point c c2)))
                        (encodeURIComponent r2)
        else None
      end
    else option_map (app (escape_code_point c)) (encodeURIComponent r)
  end.

(** What an escaped text is made of: the characters left as they are
    (the hex digits are among them) and the percent sign. *)
Definition is_escaped_text_char (c : N) : bool :=
  is_unescaped c || N.eqb c (ch "%").

(** Strings as JavaScript has them: every element a 16-bit code unit. *)
Definition code_units (s : jsstring) : Prop := Forall (fun c => c < 65536) s.

(** No surrogate without its partner. *)
Fixpoint well_formed (s : jsstring) : bool :=
  match s with
  | [] => true
  | c :: r =>
    if is_trail c then false
    else if is_lead c then
      match r with
      | [] => false
      | c2 :: r2 => is_trail c2 && well_formed r2
      end
    else well_formed r
  end.

Definition unhex (c : N) : N :=
  if N.ltb c (ch "A") then c - ch "0" else c - ch "A" + 10.

(** The code units of a code point: itself, or its surrogate pair. *)
Definition units_of_code_point (cp : N) : jsstring :=
  if N.ltb cp 65536 then [cp]
  else [55296 + (cp - 65536) / 1024; 56320 + (cp - 65536) mod 1024].

(** The octet two hex digits stand for. *)
Definition octet (h1 h2 : N) : N := unhex h1 * 16 + unhex h2.

(** Reads an escaped text back, octet by octet and code point by code
    point: what a decoder of the form does.  [fuel] is the length of the
    text. *)
Fixpoint unescape (fuel : nat) (t : jsstring) : jsstring :=
  match fuel with
  | O => []
  | S f =>
    match t with
    | [] => []
    | c :: r =>
      if N.eqb c (ch "%") then
        match r with
        | h1 :: h2 :: r1 =>
          if N.ltb (octet h1 h2) 128 then octet h1 h2 :: unescape f r1
          else if N.ltb (octet h1 h2) 224 then
            match r1 with
            | _ :: h3 :: h4 :: r2 =>
              units_of_code_point
                ((octet h1 h2 - 192) * 64 + (octet h3 h4 - 128))
                ++ unescape f r2
            | _ => []
            end
          else if N.ltb (octet h1 h2) 240 then
            match r1 with
            | _ :: h3 :: h4 :: _ :: h5 :: h6 :: r2 =>
              units_of_code_point
                ((octet h1 h2 - 224) * 4096 + (octet h3 h4 - 128) * 64
                 + (octet h5 h6 - 128))
                ++ unescape f r2
            | _ => []
            end
          else
            match r1 with
            | _ :: h3 :: h4 :: _ :: h5 :: h6 :: _ :: h7 :: h8 :: r2 =>
              units_of_code_point
                ((octet h1 h2 - 240) * 262144 + (octet h3 h4 - 128) * 4096
                 + (octet h5 h6 - 128) * 64 + (octet h7 h8 - 128))
                ++ unescape f r2
            | _ => []
            end
        | _ => []
        end
      else c :: unescape f r
    end
  end.

End URI.

(** What [fetch] is called with. *)
Record request := {
  req_url : jsstring;
  req_method : jsstring;
  req_headers : list (jsstring * jsstring);
  req_body : jsstring }.

(** [login] up to its first [await]: [email] and [password] are the values
    of the two input fields; [None] when building the body throws, in which
    case [fetch] is never called. *)
Definition login_request (email password : jsstring) : option request :=
  match URI.encodeURIComponent email with
  | None => None
  | Some e =>
    match URI.encodeURIComponent password with
    | None => None
    | Some p =>
      Some {| req_url := js "/token";
              req_method := js "POST";
              req_headers :=
                [(js "Content-Type", js "application/x-www-form-urlencoded")];
              req_body := js "username=" ++ e ++ js "&password=" ++ p |}
    end
  end.

(** How often [c] occurs in [t]. *)
Definition occurrences (c : N) (t : jsstring) : nat :=
  length (filter (N.eqb c) t).

(** [t] up to its first [c], and what follows it. *)
Fixpoint split_at (c : N) (t : jsstring) : jsstring * jsstring :=
  match t with
  | [] => ([], [])
  | x :: r =>
    if N.eqb x c then ([], r)
    else let (a, b) := split_at c r in (x :: a, b)
  end.

(** ** More notions *)


Definition rank (r : readyState) : nat :=
  match r with CONNECTING => 0 | OPEN => 1 | CLOSING => 2 | CLOSED => 3 end.

(** Every socket of [s] is still there in [s'], with its URL, and no
    earlier in its life. *)
Definition sockets_grow (s s' : page) : Prop :=
  forall i w, nth_error (sockets s) i = Some w ->
    exists w', nth_error (sockets s') i = Some w' /\
               ws_url w' = ws_url w /\
               rank (ws_readyState w) <= rank (ws_readyState w').

Definition is_message (ev : event) : bool :=
  match ev with WsMessage _ _ => true | _ => false end.

(** The login form is hidden and the chart container shown. *)
Definition chart_shown (s : page) : Prop :=
  login_form_display s = js "none" /\ chart_container_display s = js "block".

(** Every label in the chart has at most 8 code units. *)
Definition labels_short (s : page) : Prop :=
  Forall (fun l : jsstring => length l <= 8) (buffer_labels s).

(** Every socket goes to the stream endpoint of the page's own host, with
    the scheme that matches the page's. *)
Definition sockets_to_own_host (s : page) : Prop :=
  Forall (fun w =>
            exists token,
              ws_url w =
              (if jsstring_eqb (location_protocol s) (js "https:")
               then js "wss" else js "ws")
              ++ js "://" ++ location_host s
              ++ js "/ws/transactions?token=" ++ token)
         (sockets s).

(** The chart after the points [pts] were appended one by one. *)
Definition append_points (pts : list (jsstring * value)) (c : Chart) : Chart :=
  fold_left (fun c p => append_point (fst p) (snd p) c) pts c.

(** A trace in which no message is handled and nobody logs in: opens,
    errors, closes, reconnects and the clock. *)
Definition quiet (evs : list event) : bool :=
  forallb (fun ev => negb (is_login ev) && negb (is_message ev)) evs.

Definition after_error : page :=
  Eval vm_compute in
    match step (WsError 0) before_delivery with
    | Some s => s
    | None => before_delivery
    end.

Definition after_error_trace : list event :=
  [WsClose 0; Tick 5000; TimerFire 0; WsOpen 1].

Definition long_after_error : page :=
  Eval vm_compute in
    match run after_error_trace after_error with
    | Some s => s
    | None => after_error
    end.

Definition reconnect_session : list event :=
  LoginResponse 200 (jsq "{'access_token':'abc123'}") :: reconnect_trace.

Definition reconnected_alone : page :=
  Eval vm_compute in
    match step (TimerFire 0) after_reconnect_alone with
    | Some s => s
    | None => after_reconnect_alone
    end.

Definition failed_relogin_trace : list event :=
  [WsOpen 0; WsClose 0; LoginResponse 401 (jsq "{'detail':'Invalid credentials'}")].

Definition after_failed_relogin : page :=
  Eval vm_compute in
    match run failed_relogin_trace logged_in_page with
    | Some s => s
    | None => logged_in_page
    end.

Definition sample_email : jsstring := js "a.b@example.com".

Definition sample_password : jsstring := js "p&ss=w rd".

Definition sample_request : request :=
  {| req_url := js "/token";
     req_method := js "POST";
     req_headers :=
       [(js "Content-Type", js "application/x-www-form-urlencoded")];
     req_body := js "username=a.b%40example.com&password=p%26ss%3Dw%20rd" |}.

(** ** Tactics *)

Ltac case_ltb H :=
  match goal with
  | |- context [Nat.ltb ?a ?b] => destruct (Nat.ltb_spec a b) as [H|H]
  end.

(** ** [JSON.parse] never runs out of fuel *)

Module JSONFacts.
Import JSON.

Lemma skip_ws_length s : length (skip_ws s) <= length s.
Proof.
  induction s as [|c r IH]; [reflexivity|].
  cbn [skip_ws]. destruct (is_ws c); cbn [length]; lia.
Qed.

Lemma span_digits_length s : length (snd (span_digits s)) <= length s.
Proof.
  induction s as [|c r IH]; [reflexivity|].
  cbn [span_digits]. destruct (is_digit c); [|reflexivity].
  destruct (span_digits r) as [ds rest]. cbn [snd length] in *. lia.
Qed.

Lemma parse_chars_length s : forall str rest,
  parse_chars s = Some (str, rest) -> length rest < length s.
Proof.
  induction s as [s IH] using (well_founded_induction
                                 (Wf_nat.well_founded_ltof _ (@length N))).
  unfold Wf_nat.ltof in IH. intros str rest H.
  destruct s as [|c r]; [discriminate|]. cbn [parse_chars] in H.
  destruct (N.eqb c dquote).
  { injection H as _ <-. cbn [length]. lia. }
  destruct (N.eqb c backslash).
  - destruct r as [|e r1]; [discriminate|].
    destruct (N.eqb e (ch "u")).
    + destruct r1 as [|h1 [|h2 [|h3 [|h4 r2]]]]; try discriminate.
      destruct (hex4 h1 h2 h3 h4); [|discriminate].
      destruct (parse_chars r2) as [[str' rest']|] eqn:E; [|discriminate].
      injection H as _ <-. apply IH in E; cbn [length] in *; lia.
    + destruct (escape e); [|discriminate].
      destruct (parse_chars r1) as [[str' rest']|] eqn:E; [|discriminate].
      injection H as _ <-. apply IH in E; cbn [length] in *; lia.
  - destruct (N.ltb c 32); [discriminate|].
    destruct (parse_chars r) as [[str' rest']|] eqn:E; [|discriminate].
    injection H as _ <-. apply IH in E; cbn [length] in *; lia.
Qed.

Lemma strip_prefix_length p : forall s rest,
  strip_prefix p s = Some rest -> length rest + length p = length s.
Proof.
  induction p as [|a p IH]; intros s rest H.
  - cbn in H. injection H as <-. cbn. lia.
  - destruct s as [|b s]; [discriminate|]. cbn [strip_prefix] in H.
    destruct (N.eqb a b); [|discriminate].
    apply IH in H. cbn [length]. lia.
Qed.

Lemma parse_int_length s ds rest :
  parse_int s = Some (ds, rest) -> length rest < length s.
Proof.
  unfold parse_int. destruct s as [|c r]; [discriminate|].
  destruct (N.eqb c (ch "0")).
  { intros H. injection H as _ <-. cbn [length]. lia. }
  destruct (is_digit c) eqn:Hd; [|discriminate].
  intros H. injection H as H. cbn [span_digits] in H. rewrite Hd in H.
  pose proof (span_digits_length r) as Hl.
  destruct (span_digits r) as [ds' rest']. injection H as _ <-.
  cbn [snd length] in *. lia.
Qed.

Lemma parse_frac_length s ds rest :
  parse_frac s = Some (ds, rest) -> length rest <= length s.
Proof.
  unfold parse_frac. destruct s as [|c r].
  { intros H. injection H as _ <-. reflexivity. }
  destruct (N.eqb c (ch ".")).
  - pose proof (span_digits_length r) as Hl.
    destruct (span_digits r) as [[|d ds'] rest']; [discriminate|].
    intros H. injection H as _ <-. cbn [snd length] in *. lia.
  - intros H. injection H as _ <-. reflexivity.
Qed.

Lemma parse_exp_length s e rest :
  parse_exp s = Some (e, rest) -> length rest <= length s.
Proof.
  unfold parse_exp. destruct s as [|c r].
  { intros H. injection H as _ <-. reflexivity. }
  destruct (N.eqb c (ch "e") || N.eqb c (ch "E")).
  - destruct r as [|x r']; cbn zeta.
    + cbn. discriminate.
    + destruct (N.eqb x (ch "-")); [|destruct (N.eqb x (ch "+"))];
        match goal with
        | |- context [span_digits ?r1] =>
          pose proof (span_digits_length r1) as Hl;
          destruct (span_digits r1) as [[|d ds'] rest']; [discriminate|];
          intros H; injection H as _ <-; cbn [snd length] in *; lia
        end.
  - intros H. injection H as _ <-. reflexivity.
Qed.

Lemma parse_number_length c r n rest :
  parse_number (c :: r) = Some (n, rest) -> length rest < length (c :: r).
Proof.
  unfold parse_number.
  assert (Hs : forall (neg : bool) s1,
             length s1 <= length (c :: r) ->
             match parse_int s1 with
             | None => None
             | Some (ints, s2) =>
               match parse_frac s2 with
               | None => None
               | Some (fracs, s3) =>
                 match parse_exp s3 with
                 | None => None
                 | Some (e, s4) =>
                   Some (mk_number neg (ints ++ fracs)
                                   (e - Z.of_nat (length fracs))%Z, s4)
                 end
               end
             end = Some (n, rest) -> length rest < length (c :: r)).
  { intros neg s1 Hl H.
    destruct (parse_int s1) as [[ints s2]|] eqn:E1; [|discriminate].
    destruct (parse_frac s2) as [[fracs s3]|] eqn:E2; [|discriminate].
    destruct (parse_exp s3) as [[e s4]|] eqn:E3; [|discriminate].
    injection H as _ <-.
    apply parse_int_length in E1. apply parse_frac_length in E2.
    apply parse_exp_length in E3. lia. }
  destruct (N.eqb c (ch "-")); apply Hs; cbn [length]; lia.
Qed.

Ltac break_match_in H :=
  match type of H with
  | context [match ?x with _ => _ end] => destruct x eqn:?
  end.

Ltac length_facts :=
  repeat match goal with
  | H : skip_ws ?s = _ |- _ =>
    lazymatch goal with
    | _ : length (skip_ws s) <= length s |- _ => fail
    | _ => pose proof (skip_ws_length s)
    end
  end;
  repeat match goal with
  | H : skip_ws ?s = _, H' : length (skip_ws ?s) <= _ |- _ => rewrite H in H'
  end;
  repeat match goal with
  | H : parse_chars _ = Some _ |- _ => apply parse_chars_length in H
  | H : parse_number (_ :: _) = Some _ |- _ => apply parse_number_length in H
  | H : strip_prefix _ _ = Some _ |- _ => apply strip_prefix_length in H
  end;
  cbn [length js map list_ascii_of_string] in *.

(** A successful parse consumes at least one code unit. *)
Lemma parse_length fuel :
  (forall s v rest, parse_value fuel s = POk v rest -> length rest < length s) /\
  (forall s vs rest, parse_elements fuel s = POk vs rest -> length rest < length s) /\
  (forall s ms rest, parse_members fuel s = POk ms rest -> length rest < length s).
Proof.
  induction fuel as [|f (IHv & IHe & IHm)].
  { repeat split; intros; discriminate. }
  repeat split.
  - intros s v rest H. cbn [parse_value] in H.
    repeat break_match_in H; try discriminate; injection H as <- <-;
      repeat match goal with
      | H : parse_members f _ = POk _ _ |- _ => apply IHm in H
      | H : parse_elements f _ = POk _ _ |- _ => apply IHe in H
      end; length_facts; lia.
  - intros s vs rest H. cbn [parse_elements] in H.
    repeat break_match_in H; try discriminate; injection H as <- <-;
      repeat match goal with
      | H : parse_value f _ = POk _ _ |- _ => apply IHv in H
      | H : parse_elements f _ = POk _ _ |- _ => apply IHe in H
      end; length_facts; lia.
  - intros s ms rest H. cbn [parse_members] in H.
    repeat break_match_in H; try discriminate; injection H as <- <-;
      repeat match goal with
      | H : parse_value f _ = POk _ _ |- _ => apply IHv in H
      | H : parse_members f _ = POk _ _ |- _ => apply IHm in H
      end; length_facts; lia.
Qed.

Lemma parse_fuel fuel :
  (forall s, 2 * length s + 1 <= fuel -> parse_value fuel s <> PFuel) /\
  (forall s, 2 * length s + 2 <= fuel -> parse_elements fuel s <> PFuel) /\
  (forall s, 2 * length s + 2 <= fuel -> parse_members fuel s <> PFuel).
Proof.
  induction fuel as [|f (IHv & IHe & IHm)].
  { repeat split; intros; lia. }
  destruct (parse_length f) as (Lv & Le & Lm).
  repeat split.
  - intros s Hf H. cbn [parse_value] in H.
    repeat break_match_in H; try discriminate;
      match goal with
      | H : parse_members f ?x = PFuel |- _ => apply (IHm x); [|exact H]
      | H : parse_elements f ?x = PFuel |- _ => apply (IHe x); [|exact H]
      end; length_facts; lia.
  - intros s Hf H. cbn [parse_elements] in H.
    repeat break_match_in H; try discriminate;
      repeat match goal with
      | H : parse_value f _ = POk _ _ |- _ => apply Lv in H
      end;
      match goal with
      | H : parse_value f ?x = PFuel |- _ => apply (IHv x); [|exact H]
      | H : parse_elements f ?x = PFuel |- _ => apply (IHe x); [|exact H]
      end; length_facts; lia.
  - intros s Hf H. cbn [parse_members] in H.
    repeat break_match_in H; try discriminate;
      repeat match goal with
      | H : parse_value f _ = POk _ _ |- _ => apply Lv in H
      end;
      match goal with
      | H : parse_value f ?x = PFuel |- _ => apply (IHv x); [|exact H]
      | H : parse_members f ?x = PFuel |- _ => apply (IHm x); [|exact H]
      end; length_facts; lia.
Qed.

(** The fuel [JSON.parse] starts with is enough for every text: [None] is
    always the [SyntaxError]. *)
Lemma parse_value_fuel (text : jsstring) :
  parse_value (fuel_for text) text <> PFuel.
Proof. apply (proj1 (parse_fuel (fuel_for text))). unfold fuel_for. lia. Qed.

(** So [JSON.parse] answers [None] only for a text outside the grammar, or
    one with something other than white space after its value. *)
Lemma parse_None_is_SyntaxError (text : jsstring) :
  parse text = None ->
  parse_value (fuel_for text) text = PErr \/
  exists v rest,
    parse_value (fuel_for text) text = POk v rest /\ skip_ws rest <> [].
Proof.
  unfold parse. pose proof (parse_value_fuel text) as Hf.
  destruct (parse_value (fuel_for text) text) as [v rest| |];
    [|auto|contradiction].
  destruct (skip_ws rest) eqn:E; [discriminate|].
  intros _. right. exists v, rest. rewrite E. split; [reflexivity|discriminate].
Qed.

End JSONFacts.

(** ** The message handler and the buffer *)

Lemma onmessage_spec (event_data : jsstring) (s : page) :
  onmessage event_data s =
  match chart_point event_data with
  | Throw e => (Throw e, s)
  | Normal (label, amount) =>
    match transactionChart s with
    | None => (Throw TypeError, s)
    | Some c =>
      (Normal tt, set_transactionChart (Some (append_point label amount c)) s)
    end
  end.
Proof.
  unfold onmessage, chart_point, JSON_parse, bind, lift.
  destruct (JSON.parse event_data) as [transaction|]; [|reflexivity].
  destruct (get transaction (js "transaction_id")) as [id|e]; [|reflexivity].
  destruct (substring id 0 8) as [label|e]; [|reflexivity].
  destruct (get transaction (js "transaction_details")) as [details|e];
    [|reflexivity].
  destruct (get details (js "amount")) as [amount|e]; [|reflexivity].
  unfold labels_push, points_push, labels_length, the_chart, bind.
  destruct (transactionChart s) as [c|] eqn:Hc; [|reflexivity].
  unfold append_point, put_chart, modify, ret.
  cbn [transactionChart set_transactionChart labels points drawn].
  destruct (Nat.ltb 20 (length (labels c ++ [label]))) eqn:Hlen.
  - unfold labels_shift, points_shift, chart_update, the_chart, bind,
      put_chart, modify.
    cbn [transactionChart set_transactionChart labels points drawn].
    reflexivity.
  - unfold chart_update, the_chart, bind, put_chart, modify, ret.
    cbn [transactionChart set_transactionChart labels points drawn].
    reflexivity.
Qed.

Lemma step_message_chart i event_data s s' :
  step (WsMessage i event_data) s = Some s' ->
  transactionChart s' =
  match chart_point event_data, transactionChart s with
  | Normal (label, amount), Some c => Some (append_point label amount c)
  | _, other => other
  end.
Proof.
  unfold step. destruct (readyState_of i s) as [[]|]; try discriminate.
  intros H. injection H as <-. unfold dispatch. rewrite onmessage_spec.
  destruct (chart_point event_data) as [[label amount]|e]; [|reflexivity].
  destruct (transactionChart s) eqn:Hc; cbn; [reflexivity|exact Hc].
Qed.

Lemma set_readyState_chart i r s :
  transactionChart (set_readyState i r s) = transactionChart s.
Proof. unfold set_readyState. destruct (nth_error (sockets s) i); reflexivity. Qed.

Lemma step_other_chart ev s s' :
  is_login ev = false ->
  (forall i d, ev <> WsMessage i d) ->
  step ev s = Some s' ->
  transactionChart s' = transactionChart s.
Proof.
  intros Hl Hm. destruct ev as [st b|i|i d|i|i|j|ms]; cbn in Hl; try discriminate.
  - cbn. destruct (readyState_of i s) as [[]|]; try discriminate.
    intros H. injection H as <-. cbn. apply set_readyState_chart.
  - exfalso. exact (Hm i d eq_refl).
  - cbn. unfold onerror, ws_close, console_error, dispatch, bind, modify.
    destruct (readyState_of i s) as [[]|]; try discriminate;
      intros H; injection H as <-; cbn;
      destruct (nth_error (sockets s) i) as [w|]; try reflexivity;
      destruct (ws_readyState w); reflexivity.
  - cbn. destruct (readyState_of i s) as [[]|]; try discriminate;
      intros H; injection H as <-; cbn; apply set_readyState_chart.
  - cbn. destruct (nth_error (timeouts s) j) as [t|]; try discriminate.
    destruct (timeout_set_at t + timeout_delay t <=? clock s)%Z; try discriminate.
    intros H. injection H as <-. reflexivity.
  - cbn. destruct (0 <=? ms)%Z; try discriminate.
    intros H. injection H as <-. reflexivity.
Qed.

Lemma tl_skipn {A} (k : nat) (l : list A) : tl (skipn k l) = skipn (S k) l.
Proof.
  revert l. induction k as [|k IH]; intros [|x l]; try reflexivity.
  cbn [skipn]. rewrite IH. destruct l; reflexivity.
Qed.

Lemma length_window {A} (l : list A) : length (window l) = Nat.min (length l) 20.
Proof. unfold window. rewrite length_skipn. lia. Qed.

(** Pushing onto the last 20 and shifting when that makes 21 gives the last
    20 again. *)
Lemma window_snoc {A} (l : list A) (x : A) :
  (if Nat.ltb 20 (length (window l ++ [x]))
   then tl (window l ++ [x]) else window l ++ [x]) = window (l ++ [x]).
Proof.
  rewrite length_app, length_window. cbn [length].
  unfold window. rewrite length_app. cbn [length].
  destruct (Nat.ltb_spec 20 (Nat.min (length l) 20 + 1)) as [H|H].
  - assert (Hk : length l + 1 - 20 = S (length l - 20)) by lia.
    rewrite Hk, skipn_app.
    replace (S (length l - 20) - length l) with 0 by lia.
    rewrite <- tl_skipn. change (skipn 0 [x]) with [x].
    destruct (skipn (length l - 20) l) eqn:E; [|reflexivity].
    apply (f_equal (@length A)) in E. rewrite length_skipn in E.
    cbn [length] in E. lia.
  - replace (length l - 20) with 0 by lia.
    replace (length l + 1 - 20) with 0 by lia. reflexivity.
Qed.

Lemma holds_window_new : holds_window [] new_Chart.
Proof. split; reflexivity. Qed.

Lemma append_point_window pts label amount c :
  holds_window pts c ->
  holds_window (pts ++ [(label, amount)]) (append_point label amount c).
Proof.
  intros [Hl Hp]. unfold holds_window, append_point.
  assert (Hlen : length (labels c ++ [label]) = length (points c ++ [amount])).
  { rewrite !length_app, Hl, Hp, !length_window, !length_map. reflexivity. }
  rewrite !map_app. cbn [map fst snd].
  rewrite <- (window_snoc (map fst pts)), <- (window_snoc (map snd pts)).
  rewrite <- Hl, <- Hp, <- Hlen.
  destruct (Nat.ltb 20 (length (labels c ++ [label]))); split; reflexivity.
Qed.

(** Along a trace without a login the chart slides over the appended
    points. *)
Lemma run_window evs : forall s s' c pts,
  no_login evs = true ->
  transactionChart s = Some c ->
  holds_window pts c ->
  run evs s = Some s' ->
  exists c', transactionChart s' = Some c' /\
             holds_window (pts ++ appended evs) c'.
Proof.
  induction evs as [|ev evs IH]; intros s s' c pts Hn Hc Hw Hr.
  - cbn in Hr. injection Hr as <-. exists c. rewrite app_nil_r. auto.
  - cbn [run] in Hr. destruct (step ev s) as [s1|] eqn:Hs; [|discriminate].
    cbn [no_login forallb] in Hn. apply andb_prop in Hn as [Hev Hn].
    apply negb_true_iff in Hev.
    destruct ev as [st b|i|i d|i|i|j|ms]; try discriminate Hev;
      try (cbn [appended flat_map app];
           apply (IH s1 s' c pts Hn); [|exact Hw|exact Hr];
           erewrite step_other_chart; [exact Hc|exact Hev| |exact Hs];
           intros; discriminate).
    apply step_message_chart in Hs. rewrite Hc in Hs.
    unfold appended. cbn [flat_map]. fold (appended evs).
    destruct (chart_point d) as [[label amount]|e].
    + rewrite app_assoc.
      apply (IH s1 s' _ _ Hn Hs); [|exact Hr].
      apply append_point_window, Hw.
    + cbn [app]. apply (IH s1 s' c pts Hn Hs Hw Hr).
Qed.

(** ** Login *)

Lemma login_spec (status : Z) (body : jsstring) (s : page) :
  login status body s =
  match JSON.parse body with
  | None => (Throw SyntaxError, s)
  | Some data =>
    if Z.eqb status 200 then
      match get data (js "access_token") with
      | Throw e => (Throw e, s)
      | Normal token =>
        (Normal tt,
         {| accessToken := token;
            transactionChart := Some new_Chart;
            login_status_innerText := js "Login successful!";
            login_form_display := js "none";
            chart_container_display := js "block";
            location_protocol := location_protocol s;
            location_host := location_host s;
            sockets := sockets s ++
              [{| ws_url := wsUrl_of (set_accessToken token s);
                  ws_readyState := CONNECTING |}];
            timeouts := timeouts s;
            console := console s;
            clock := clock s |})
      end
    else
      match get data (js "detail") with
      | Throw e => (Throw e, s)
      | Normal detail =>
        (Normal tt,
         set_login_status_innerText (js "Login failed: " ++ ToString detail) s)
      end
  end.
Proof.
  unfold login, JSON_parse, bind, lift.
  destruct (JSON.parse body) as [data|]; [|reflexivity].
  destruct (Z.eqb status 200).
  - destruct (get data (js "access_token")) as [token|e]; reflexivity.
  - destruct (get data (js "detail")) as [detail|e]; reflexivity.
Qed.

(** C6. A response with status 200 and body [{"access_token":"abc123"}],
    on a page that has no chart yet (the first successful login, where the
    canvas is free for [new Chart]): the stored token is ["abc123"], the
    chart container is displayed (['block']), the login form is hidden
    (['none']), the chart is set up with empty arrays, and one socket is
    opened to [/ws/transactions?token=abc123]; the rest of the page is as
    it was. *)
Theorem login_success_stores_token_and_connects (s : page) :
  transactionChart s = None ->
  login 200 (jsq "{'access_token':'abc123'}") s =
  (Normal tt,
   {| accessToken := VString (js "abc123");
      transactionChart := Some new_Chart;
      login_status_innerText := js "Login successful!";
      login_form_display := js "none";
      chart_container_display := js "block";
      location_protocol := location_protocol s;
      location_host := location_host s;
      sockets := sockets s ++
        [{| ws_url :=
              (if jsstring_eqb (location_protocol s) (js "https:")
               then js "wss" else js "ws")
              ++ js "://" ++ location_host s
              ++ js "/ws/transactions?token=" ++ js "abc123";
            ws_readyState := CONNECTING |}];
      timeouts := timeouts s;
      console := console s;
      clock := clock s |}).
Proof.
  intros _. rewrite login_spec.
  replace (JSON.parse (jsq "{'access_token':'abc123'}"))
    with (Some (VObject [(js "access_token", VString (js "abc123"))]))
    by (vm_compute; reflexivity).
  reflexivity.
Qed.

Lemma login_success_stores_token_and_connects_witness :
  transactionChart start_page = None /\
  login 200 (jsq "{'access_token':'abc123'}") start_page =
  (Normal tt,
   {| accessToken := VString (js "abc123");
      transactionChart := Some new_Chart;
      login_status_innerText := js "Login successful!";
      login_form_display := js "none";
      chart_container_display := js "block";
      location_protocol := js "http:";
      location_host := js "localhost:8000";
      sockets :=
        [{| ws_url := js "ws://localhost:8000/ws/transactions?token=abc123";
            ws_readyState := CONNECTING |}];
      timeouts := [];
      console := [];
      clock := 0 |}).
Proof.
  split; [reflexivity|].
  rewrite (@login_success_stores_token_and_connects start_page eq_refl).
  reflexivity.
Defined.

(** C7. A response with a status other than 200 and body
    [{"detail":"Invalid credentials"}]: the status text becomes
    ["Login failed: Invalid credentials"] and nothing else on the page
    changes (token, chart, displays, sockets, timers). *)
Theorem login_failure_only_sets_status (s : page) (status : Z) :
  status <> 200%Z ->
  login status (jsq "{'detail':'Invalid credentials'}") s =
  (Normal tt,
   set_login_status_innerText (js "Login failed: Invalid credentials") s).
Proof.
  intros Hs. rewrite login_spec.
  replace (JSON.parse (jsq "{'detail':'Invalid credentials'}"))
    with (Some (VObject [(js "detail", VString (js "Invalid credentials"))]))
    by (vm_compute; reflexivity).
  destruct (Z.eqb_spec status 200) as [E|_]; [contradiction|].
  reflexivity.
Qed.

Lemma login_failure_only_sets_status_witness :
  401%Z <> 200%Z /\
  login 401 (jsq "{'detail':'Invalid credentials'}") start_page =
  (Normal tt,
   set_login_status_innerText (js "Login failed: Invalid credentials")
                              start_page).
Proof.
  split; [lia|]. apply (@login_failure_only_sets_status start_page 401). lia.
Defined.

(** ** The buffer along a trace *)

(** C1. From a freshly initialised chart, after any trace of socket, timer
    and clock events the labels array has [min (appended so far) 20]
    elements, hence never more than 20.  The trace is arbitrary, so this
    holds after each append. *)
Theorem buffer_length_is_min_appended_20 (s s' : page) (evs : list event) :
  transactionChart s = Some new_Chart ->
  no_login evs = true ->
  run evs s = Some s' ->
  length (buffer_labels s') = Nat.min (length (appended evs)) 20 /\
  length (buffer_labels s') <= 20.
Proof.
  intros Hc Hn Hr.
  destruct (run_window evs s (pts := []) Hn Hc holds_window_new Hr)
    as (c' & Hc' & Hl & _).
  unfold buffer_labels. rewrite Hc', Hl, length_window, length_map.
  cbn [app]. split; [reflexivity|lia].
Qed.

Lemma run_sample_trace : run sample_trace logged_in_page = Some after_sample_trace.
Proof. vm_compute. reflexivity. Qed.

Lemma logged_in_chart : transactionChart logged_in_page = Some new_Chart.
Proof. vm_compute. reflexivity. Qed.

Lemma buffer_length_is_min_appended_20_witness :
  transactionChart logged_in_page = Some new_Chart /\
  no_login sample_trace = true /\
  run sample_trace logged_in_page = Some after_sample_trace /\
  length (buffer_labels after_sample_trace)
  = Nat.min (length (appended sample_trace)) 20 /\
  length (buffer_labels after_sample_trace) <= 20.
Proof.
  split; [exact logged_in_chart|]. split; [reflexivity|].
  split; [exact run_sample_trace|].
  exact (@buffer_length_is_min_appended_20 logged_in_page after_sample_trace
           sample_trace logged_in_chart eq_refl run_sample_trace).
Defined.

Lemma window_map {A B} (f : A -> B) (l : list A) : window (map f l) = map f (window l).
Proof. unfold window. rewrite length_map. apply skipn_map. Qed.

(** C2. From a freshly initialised chart, once more than 20 points were
    appended the two arrays hold exactly the last 20 appended points, oldest
    first: the labels are their labels and the amounts their amounts. *)
Theorem buffer_is_last_20_appended (s s' : page) (evs : list event) :
  transactionChart s = Some new_Chart ->
  no_login evs = true ->
  run evs s = Some s' ->
  20 < length (appended evs) ->
  let last20 := skipn (length (appended evs) - 20) (appended evs) in
  length last20 = 20 /\
  buffer_labels s' = map fst last20 /\
  buffer_points s' = map snd last20 /\
  combine (buffer_labels s') (buffer_points s') = last20.
Proof.
  intros Hc Hn Hr Hlen last20.
  destruct (run_window evs s (pts := []) Hn Hc holds_window_new Hr)
    as (c' & Hc' & Hl & Hp).
  cbn [app] in Hl, Hp. rewrite window_map in Hl. rewrite window_map in Hp.
  unfold buffer_labels, buffer_points. rewrite Hc', Hl, Hp.
  fold last20. change (window (appended evs)) with last20.
  repeat split.
  - subst last20. rewrite length_skipn. lia.
  - clear. induction last20 as [|[l a] r IH]; [reflexivity|].
    cbn [map combine fst snd]. rewrite IH. reflexivity.
Qed.

Lemma run_long_trace : run long_trace logged_in_page = Some after_long_trace.
Proof. vm_compute. reflexivity. Qed.

Lemma long_trace_appended : 20 < length (appended long_trace).
Proof. vm_compute. repeat constructor. Qed.

Lemma buffer_is_last_20_appended_witness :
  transactionChart logged_in_page = Some new_Chart /\
  no_login long_trace = true /\
  run long_trace logged_in_page = Some after_long_trace /\
  20 < length (appended long_trace) /\
  buffer_labels after_long_trace
  = map fst (skipn (length (appended long_trace) - 20) (appended long_trace)).
Proof.
  split; [exact logged_in_chart|]. split; [reflexivity|].
  split; [exact run_long_trace|]. split; [exact long_trace_appended|].
  exact (proj1 (proj2
    (@buffer_is_last_20_appended logged_in_page after_long_trace long_trace
       logged_in_chart eq_refl run_long_trace long_trace_appended))).
Defined.

(** ** The two arrays stay in step *)

Lemma append_point_lengths label amount c :
  length (labels c) = length (points c) ->
  length (labels (append_point label amount c))
  = length (points (append_point label amount c)).
Proof.
  intros H. unfold append_point.
  destruct (Nat.ltb 20 (length (labels c ++ [label])));
    cbn [labels points].
  - destruct (labels c), (points c); try discriminate; cbn [app tl];
      rewrite ?length_app; cbn [length] in *; lia.
  - rewrite !length_app. cbn [length]. lia.
Qed.

Lemma login_chart status body s :
  transactionChart (dispatch (login status body) s) = transactionChart s \/
  transactionChart (dispatch (login status body) s) = Some new_Chart.
Proof.
  unfold dispatch. rewrite login_spec.
  destruct (JSON.parse body) as [data|]; [|left; reflexivity].
  destruct (Z.eqb status 200).
  - destruct (get data (js "access_token")); [right|left]; reflexivity.
  - destruct (get data (js "detail")); left; reflexivity.
Qed.

Lemma step_lengths_agree ev s s' :
  lengths_agree s -> step ev s = Some s' -> lengths_agree s'.
Proof.
  unfold lengths_agree, buffer_labels, buffer_points. intros H Hs.
  destruct ev as [st b|i|i d|i|i|j|ms];
    try (assert (E : transactionChart s' = transactionChart s)
           by (eapply step_other_chart; [ | |exact Hs];
               [reflexivity|intros; discriminate]);
         rewrite E; exact H).
  - cbn in Hs. injection Hs as <-.
    destruct (login_chart st b s) as [-> | ->]; [exact H|reflexivity].
  - apply step_message_chart in Hs. rewrite Hs.
    destruct (chart_point d) as [[label amount]|e]; [|exact H].
    destruct (transactionChart s) as [c|]; [|exact H].
    apply append_point_lengths, H.
Qed.

Lemma labels_and_points_in_step
    (status form container protocol host : jsstring)
    (evs : list event) (s' : page) :
  run evs (initial_page status form container protocol host) = Some s' ->
  lengths_agree s'.
Proof.
  assert (Hinit : lengths_agree (initial_page status form container protocol host))
    by reflexivity.
  revert Hinit. generalize (initial_page status form container protocol host).
  induction evs as [|ev evs IH]; intros s H Hr.
  - cbn in Hr. injection Hr as <-. exact H.
  - cbn [run] in Hr. destruct (step ev s) as [s1|] eqn:Hs; [|discriminate].
    exact (IH s1 (step_lengths_agree _ H Hs) Hr).
Qed.

(** C10. [data.labels] and [datasets[0].data] always have the same length:
    [initializeChart] makes both empty, every turn of the event loop keeps
    them in step (the message handler pushes one element onto each and,
    past 20, shifts one off each; no other handler touches them), and so
    they are in step in every state the page reaches from its initial
    state. *)
Theorem labels_and_points_same_length :
  (forall s,
     buffer_labels (dispatch initializeChart s) = [] /\
     buffer_points (dispatch initializeChart s) = []) /\
  (forall label amount c,
     length (labels c) = length (points c) ->
     length (labels (append_point label amount c))
     = length (points (append_point label amount c))) /\
  (forall ev s s',
     length (buffer_labels s) = length (buffer_points s) ->
     step ev s = Some s' ->
     length (buffer_labels s') = length (buffer_points s')) /\
  (forall status form container protocol host evs s',
     run evs (initial_page status form container protocol host) = Some s' ->
     length (buffer_labels s') = length (buffer_points s')).
Proof.
  split; [|split; [|split]].
  - intros s. split; reflexivity.
  - exact append_point_lengths.
  - intros ev s s'. exact (@step_lengths_agree ev s s').
  - intros status form container protocol host evs s' Hr.
    exact (labels_and_points_in_step _ _ _ _ _ _ Hr).
Qed.

Lemma run_session_trace : run session_trace start_page = Some after_long_trace.
Proof. vm_compute. reflexivity. Qed.

Lemma labels_and_points_same_length_witness :
  run session_trace start_page = Some after_long_trace /\
  length (buffer_labels after_long_trace)
  = length (buffer_points after_long_trace).
Proof.
  split; [exact run_session_trace|].
  exact (proj2 (proj2 (proj2 labels_and_points_same_length))
           [] (js "block") (js "none") (js "http:") (js "localhost:8000")
           session_trace after_long_trace run_session_trace).
Defined.

(** ** One message, one point *)

(** The handler on a well-formed message, where the chart exists and its
    arrays are in step. *)
Lemma onmessage_appends_one_point
    (s : page) (c : Chart) (event_data : jsstring)
    (ms ds : list (jsstring * value)) (id : jsstring) (a : value) :
  transactionChart s = Some c ->
  length (labels c) = length (points c) ->
  JSON.parse event_data = Some (VObject ms) ->
  lookup (js "transaction_id") ms = Some (VString id) ->
  lookup (js "transaction_details") ms = Some (VObject ds) ->
  lookup (js "amount") ds = Some a ->
  let s' := set_transactionChart (Some (append_point (firstn 8 id) a c)) s in
  onmessage event_data s = (Normal tt, s') /\
  last (buffer_labels s') [] = firstn 8 id /\
  last (buffer_points s') VUndefined = a /\
  (length (labels c) < 20 ->
   buffer_labels s' = labels c ++ [firstn 8 id] /\
   buffer_points s' = points c ++ [a]) /\
  (20 <= length (labels c) ->
   buffer_labels s' = tl (labels c) ++ [firstn 8 id] /\
   buffer_points s' = tl (points c) ++ [a]).
Proof.
  intros Hc Hagree Hp Hid Hd Ha s'.
  assert (Hcp : chart_point event_data = Normal (firstn 8 id, a)).
  { unfold chart_point. rewrite Hp. cbn [get]. rewrite Hid, Hd.
    cbn [substring skipn get]. rewrite Ha. reflexivity. }
  split; [rewrite onmessage_spec, Hcp, Hc; reflexivity|].
  unfold s', buffer_labels, buffer_points, append_point.
  cbn [transactionChart set_transactionChart].
  case_ltb H; cbn [labels points];
    rewrite length_app in H; cbn [length] in H.
  - destruct (labels c) as [|l ls] eqn:El; [cbn in H; lia|].
    destruct (points c) as [|p ps] eqn:Ep; [discriminate|].
    cbn [app tl]. rewrite !last_last.
    repeat split; cbn [length] in *; intros; try reflexivity; lia.
  - rewrite !last_last.
    repeat split; intros; try reflexivity; lia.
Qed.

(** ** Rendering *)

(** C9. Rendering twice in a row shows what rendering once shows, and what
    is shown is the current contents of the two arrays whatever was shown
    before; rendering leaves the arrays alone. *)
Theorem render_twice_same_as_once (s : page) :
  let once := dispatch chart_update s in
  let twice := dispatch chart_update once in
  visible twice = visible once /\
  visible once
  = option_map (fun c => (labels c, points c)) (transactionChart s) /\
  buffer_labels once = buffer_labels s /\
  buffer_points once = buffer_points s.
Proof.
  unfold dispatch, chart_update, the_chart, bind, put_chart, modify, visible,
    buffer_labels, buffer_points.
  destruct (transactionChart s) as [c|] eqn:Hc;
    repeat (cbn [transactionChart set_transactionChart set_console option_map
                 drawn labels points];
            rewrite ?Hc);
    repeat split; reflexivity.
Qed.

(** ** Messages the handler cannot use *)

Lemma chart_point_throws event_data :
  (unparseable event_data -> chart_point event_data = Throw SyntaxError) /\
  (lacks_id event_data \/ lacks_details event_data ->
   chart_point event_data = Throw TypeError).
Proof.
  unfold chart_point. split.
  - intros H. rewrite H. reflexivity.
  - intros [(t & Hp & Hid) | (t & id & Hp & Hid & Hd)].
    + rewrite Hp. destruct t; cbn [get] in *; try reflexivity.
      destruct (lookup (js "transaction_id") members) as [[]|];
        cbn [substring]; try reflexivity.
      exfalso. exact (Hid s eq_refl).
    + rewrite Hp, Hid. cbn [substring].
      destruct Hd as [-> | ->]; reflexivity.
Qed.

(** C3, as the script has it.  A message that does not parse makes the
    handler throw a [SyntaxError], and one that has no string
    [transaction_id] or no [transaction_details] a [TypeError]; nobody
    catches the exception, the browser reports it, and nothing else
    happens: the chart, the sockets and the timers are as before, the
    socket is still open and the page goes on handling events. *)
Theorem malformed_message_throws_and_changes_nothing
    (s : page) (event_data : jsstring) (e : exn) :
  (unparseable event_data /\ e = SyntaxError) \/
  ((lacks_id event_data \/ lacks_details event_data) /\ e = TypeError) ->
  onmessage event_data s = (Throw e, s) /\
  forall i, readyState_of i s = Some OPEN ->
    exists s',
      step (WsMessage i event_data) s = Some s' /\
      s' = set_console (console s ++ [Uncaught e]) s /\
      transactionChart s' = transactionChart s /\
      sockets s' = sockets s /\
      timeouts s' = timeouts s /\
      readyState_of i s' = Some OPEN.
Proof.
  intros H.
  assert (He : chart_point event_data = Throw e).
  { destruct (chart_point_throws event_data) as [Hs Ht].
    destruct H as [[H ->] | [H ->]]; auto. }
  assert (Ho : onmessage event_data s = (Throw e, s))
    by (rewrite onmessage_spec, He; reflexivity).
  split; [exact Ho|]. intros i Hi. eexists. split.
  - unfold step, dispatch. rewrite Hi, Ho. reflexivity.
  - repeat split. exact Hi.
Qed.

Lemma malformed_message_throws_and_changes_nothing_witness :
  unparseable (js "oops") /\
  onmessage (js "oops") chart_page = (Throw SyntaxError, chart_page).
Proof.
  assert (Hu : unparseable (js "oops")) by reflexivity.
  split; [exact Hu|].
  exact (proj1 (@malformed_message_throws_and_changes_nothing
                  chart_page (js "oops") SyntaxError
                  (or_introl (conj Hu eq_refl)))).
Defined.

(** A message that only lacks the [amount] goes through: the handler
    appends the point (label, [undefined]). *)
Lemma missing_amount_appends_undefined
    (s : page) (c : Chart) (event_data id : jsstring) :
  lacks_amount event_data id ->
  transactionChart s = Some c ->
  onmessage event_data s
  = (Normal tt,
     set_transactionChart (Some (append_point (firstn 8 id) VUndefined c)) s).
Proof.
  intros (t & d & Hp & Hid & Hd & Ha) Hc.
  rewrite onmessage_spec. unfold chart_point.
  rewrite Hp, Hid, Hd, Ha, Hc. reflexivity.
Qed.

(** The claim of C3 as the specification words it fails both ways: the
    handler throws on text that is not JSON, and a message without an amount
    changes the buffer. *)
Lemma malformed_message_not_dropped :
  let no_amount := jsq "{'transaction_id':'abcdef1234567890','transaction_details':{}}" in
  (malformed (js "oops") /\
   onmessage (js "oops") chart_page = (Throw SyntaxError, chart_page)) /\
  (malformed no_amount /\
   buffer_labels chart_page = [] /\
   buffer_labels (snd (onmessage no_amount chart_page)) = [js "abcdef12"] /\
   buffer_points (snd (onmessage no_amount chart_page)) = [VUndefined]).
Proof.
  intros no_amount. split; split.
  - left. reflexivity.
  - reflexivity.
  - right. right. right. exists (js "abcdef1234567890").
    exists (VObject [(js "transaction_id", VString (js "abcdef1234567890"));
                     (js "transaction_details", VObject [])]), (VObject []).
    repeat split; reflexivity.
  - repeat split; reflexivity.
Qed.

(** ** Sockets and timers *)

Lemma set_nth_same {A} (l : list A) i x :
  nth_error l i = Some x -> set_nth i x l = l.
Proof.
  revert i. induction l as [|y l IH]; intros [|i] H; try discriminate.
  - cbn in H. injection H as ->. reflexivity.
  - cbn in *. rewrite IH; auto.
Qed.

Lemma length_set_nth {A} (l : list A) i x : length (set_nth i x l) = length l.
Proof.
  revert i. induction l as [|y l IH]; intros [|i]; cbn; auto.
Qed.

Lemma nth_error_set_nth {A} (l : list A) i x y :
  nth_error l i = Some y -> nth_error (set_nth i x l) i = Some x.
Proof.
  revert i. induction l as [|z l IH]; intros [|i] H; try discriminate; cbn; auto.
Qed.

Lemma filter_set_nth {A} (f : A -> bool) (l : list A) i x y :
  nth_error l i = Some y ->
  length (filter f (set_nth i x l)) + (if f y then 1 else 0)
  = length (filter f l) + (if f x then 1 else 0).
Proof.
  revert i. induction l as [|z l IH]; intros [|i] H; try discriminate.
  - cbn in H. injection H as ->. cbn. destruct (f x), (f y); cbn; lia.
  - cbn in H. cbn. specialize (IH i H). destruct (f z); cbn; lia.
Qed.

Lemma length_remove_nth {A} (l : list A) j x :
  nth_error l j = Some x -> S (length (remove_nth j l)) = length l.
Proof.
  intros H. assert (Hj : j < length l) by (apply nth_error_Some; congruence).
  unfold remove_nth. rewrite length_app, length_firstn, length_skipn. lia.
Qed.

Lemma In_remove_nth {A} (l : list A) j x : In x (remove_nth j l) -> In x l.
Proof.
  unfold remove_nth. intros H. apply in_app_or in H as [H|H].
  - rewrite <- (firstn_skipn j l). apply in_or_app. left. exact H.
  - rewrite <- (firstn_skipn (S j) l). apply in_or_app. right. exact H.
Qed.

(** What one turn of the event loop does to the sockets, the timers and the
    clock. *)
Lemma step_effect ev s s' :
  step ev s = Some s' ->
  match ev with
  | LoginResponse _ _ =>
    timeouts s' = timeouts s /\ clock s' = clock s /\
    (sockets s' = sockets s \/
     exists w, sockets s' = sockets s ++ [w] /\ ws_readyState w = CONNECTING)
  | WsOpen i =>
    exists w, nth_error (sockets s) i = Some w /\
              ws_readyState w = CONNECTING /\
              sockets s' = set_nth i (with_state w OPEN) (sockets s) /\
              timeouts s' = timeouts s /\ clock s' = clock s
  | WsMessage i _ =>
    exists w, nth_error (sockets s) i = Some w /\
              ws_readyState w = OPEN /\
              sockets s' = sockets s /\
              timeouts s' = timeouts s /\ clock s' = clock s
  | WsError i =>
    exists w, nth_error (sockets s) i = Some w /\
              ws_readyState w <> CLOSED /\
              sockets s' = set_nth i (with_state w CLOSING) (sockets s) /\
              timeouts s' = timeouts s /\ clock s' = clock s
  | WsClose i =>
    exists w, nth_error (sockets s) i = Some w /\
              ws_readyState w <> CLOSED /\
              sockets s' = set_nth i (with_state w CLOSED) (sockets s) /\
              timeouts s' = timeouts s ++
                [{| timeout_set_at := clock s; timeout_delay := 5000 |}] /\
              clock s' = clock s
  | TimerFire j =>
    exists t, nth_error (timeouts s) j = Some t /\
              (timeout_set_at t + timeout_delay t <= clock s)%Z /\
              sockets s' = sockets s ++
                [{| ws_url := wsUrl_of s; ws_readyState := CONNECTING |}] /\
              timeouts s' = remove_nth j (timeouts s) /\ clock s' = clock s
  | Tick ms =>
    (0 <= ms)%Z /\ sockets s' = sockets s /\ timeouts s' = timeouts s /\
    clock s' = (clock s + ms)%Z
  end.
Proof.
  destruct ev as [st b|i|i d|i|i|j|ms]; cbn [step]; unfold readyState_of.
  - intros H. injection H as <-. unfold dispatch. rewrite login_spec.
    destruct (JSON.parse b) as [data|]; [|cbn; auto].
    destruct (Z.eqb st 200).
    + destruct (get data (js "access_token")); cbn; [|auto].
      repeat split. right. eexists. split; reflexivity.
    + destruct (get data (js "detail")); cbn; auto.
  - destruct (nth_error (sockets s) i) as [w|] eqn:Hw; [|discriminate].
    cbn [option_map]. destruct (ws_readyState w) eqn:Hr; try discriminate.
    intros H. injection H as <-. exists w. unfold set_readyState. rewrite Hw.
    repeat split; auto.
  - destruct (nth_error (sockets s) i) as [w|] eqn:Hw; [|discriminate].
    cbn [option_map]. destruct (ws_readyState w) eqn:Hr; try discriminate.
    intros H. injection H as <-. exists w. unfold dispatch.
    rewrite onmessage_spec.
    destruct (chart_point d) as [[l a]|e]; [|cbn; auto].
    destruct (transactionChart s); cbn; auto.
  - destruct (nth_error (sockets s) i) as [w|] eqn:Hw; [|discriminate].
    cbn [option_map].
    destruct (ws_readyState w) eqn:Hr; try discriminate;
      intros H; injection H as <-; exists w;
      unfold dispatch, onerror, console_error, ws_close, bind, modify;
      cbn [sockets set_console]; rewrite Hw, Hr; cbn;
      repeat split; try congruence.
    symmetry. apply set_nth_same. rewrite Hw. f_equal.
    destruct w; cbn in *; subst; reflexivity.
  - destruct (nth_error (sockets s) i) as [w|] eqn:Hw; [|discriminate].
    cbn [option_map].
    destruct (ws_readyState w) eqn:Hr; try discriminate;
      intros H; injection H as <-; exists w;
      unfold set_readyState; rewrite Hw; cbn;
      repeat split; congruence.
  - destruct (nth_error (timeouts s) j) as [t|] eqn:Ht; [|discriminate].
    destruct (Z.leb_spec (timeout_set_at t + timeout_delay t) (clock s))
      as [Hdue|Hdue]; [|discriminate].
    intros H. injection H as <-. exists t. cbn. repeat split; auto.
  - destruct (Z.leb_spec 0 ms) as [Hms|Hms]; [|discriminate].
    intros H. injection H as <-. cbn. auto.
Qed.

Lemma step_timeouts ev s s' :
  step ev s = Some s' ->
  length (timeouts s') + (if is_fire ev then 1 else 0)
  = length (timeouts s) + (if is_close ev then 1 else 0) /\
  forall t, In t (timeouts s') ->
    In t (timeouts s) \/
    (is_close ev = true /\ timeout_delay t = 5000%Z /\ timeout_set_at t = clock s).
Proof.
  intros H. apply step_effect in H.
  destruct ev as [st b|i|i d|i|i|j|ms]; cbn [is_fire is_close].
  - destruct H as (-> & _ & _). split; [lia|auto].
  - destruct H as (w & _ & _ & _ & -> & _). split; [lia|auto].
  - destruct H as (w & _ & _ & _ & -> & _). split; [lia|auto].
  - destruct H as (w & _ & _ & _ & -> & _). split; [lia|auto].
  - destruct H as (w & _ & _ & _ & -> & _). rewrite length_app. cbn [length].
    split; [lia|]. intros t Ht. apply in_app_or in Ht as [Ht|[<-|[]]]; auto.
  - destruct H as (t & Ht & _ & _ & -> & _).
    pose proof (length_remove_nth _ _ Ht). split; [lia|].
    intros t' Ht'. left. exact (In_remove_nth _ _ _ Ht').
  - destruct H as (_ & _ & -> & _). split; [lia|auto].
Qed.

Lemma run_timeouts evs : forall s s',
  run evs s = Some s' ->
  length (timeouts s') + count_events is_fire evs
  = length (timeouts s) + count_events is_close evs /\
  forall t, In t (timeouts s') ->
    In t (timeouts s) \/
    (timeout_delay t = 5000%Z /\ In (timeout_set_at t) (close_times evs s)).
Proof.
  unfold count_events.
  induction evs as [|ev evs IH]; intros s s' Hr.
  - cbn in Hr. injection Hr as <-. cbn. split; [lia|auto].
  - cbn [run] in Hr. destruct (step ev s) as [s1|] eqn:Hs; [|discriminate].
    destruct (step_timeouts _ _ Hs) as [Hn Hin].
    destruct (IH s1 s' Hr) as [Hn' Hin'].
    cbn [filter close_times]. rewrite Hs. split.
    + destruct (is_fire ev), (is_close ev); cbn [length]; lia.
    + intros t Ht. destruct (Hin' t Ht) as [H1|[Hd Hc]].
      * destruct (Hin t H1) as [H0|(Hcl & Hd & Hat)]; [auto|].
        right. split; [exact Hd|]. rewrite Hcl, Hat. left. reflexivity.
      * right. split; [exact Hd|]. apply in_or_app. right. exact Hc.
Qed.

(** C4. Per close event exactly one reconnect is scheduled, with the fixed
    delay of 5000 ms, and nothing is connected at once; an error event
    schedules nothing itself and leaves the socket closing, so that its
    close event does the scheduling; a timer fires no earlier than its
    delay after it was set, and firing it makes exactly one new socket, to
    the URL built from the token of that moment.  Along every run that
    starts without timers, the reconnects made and the reconnects pending
    add up to the close events (none is dropped, none is doubled, there is
    no limit), and every reconnect is made at least 5000 ms after a close
    event of the run. *)
Theorem reconnect_once_per_close_after_5000ms :
  (forall s i s',
     step (WsClose i) s = Some s' ->
     timeouts s' = timeouts s ++
       [{| timeout_set_at := clock s; timeout_delay := 5000 |}] /\
     length (sockets s') = length (sockets s) /\
     accessToken s' = accessToken s) /\
  (forall s i s',
     step (WsError i) s = Some s' ->
     timeouts s' = timeouts s /\
     length (sockets s') = length (sockets s) /\
     readyState_of i s' = Some CLOSING /\
     step (WsClose i) s' <> None) /\
  (forall s j s',
     step (TimerFire j) s = Some s' ->
     exists t,
       nth_error (timeouts s) j = Some t /\
       (timeout_set_at t + timeout_delay t <= clock s)%Z /\
       timeouts s' = remove_nth j (timeouts s) /\
       sockets s' = sockets s ++
         [{| ws_url :=
               (if jsstring_eqb (location_protocol s) (js "https:")
                then js "wss" else js "ws")
               ++ js "://" ++ location_host s
               ++ js "/ws/transactions?token=" ++ ToString (accessToken s);
             ws_readyState := CONNECTING |}]) /\
  (forall s evs s',
     timeouts s = [] ->
     run evs s = Some s' ->
     count_events is_fire evs + length (timeouts s')
     = count_events is_close evs) /\
  (forall s evs s1 j s2,
     timeouts s = [] ->
     run evs s = Some s1 ->
     step (TimerFire j) s1 = Some s2 ->
     exists closed_at,
       In closed_at (close_times evs s) /\
       (closed_at + 5000 <= clock s1)%Z /\
       length (sockets s2) = S (length (sockets s1))).
Proof.
  split; [|split; [|split; [|split]]].
  - intros s i s' H.
    assert (Ha : accessToken s' = accessToken s).
    { cbn [step] in H. destruct (readyState_of i s) as [[]|]; try discriminate;
        injection H as <-; unfold set_readyState;
        destruct (nth_error (sockets s) i); reflexivity. }
    apply step_effect in H. destruct H as (w & _ & _ & -> & -> & _).
    rewrite length_set_nth. auto.
  - intros s i s' H. apply step_effect in H.
    destruct H as (w & Hw & _ & Hs & -> & _).
    assert (Hc : readyState_of i s' = Some CLOSING).
    { unfold readyState_of. rewrite Hs, (nth_error_set_nth _ _ _ Hw).
      reflexivity. }
    rewrite Hs, length_set_nth. repeat split; auto.
    cbn [step]. rewrite Hc. discriminate.
  - intros s j s' H. apply step_effect in H.
    destruct H as (t & Ht & Hdue & -> & -> & _). exists t. auto.
  - intros s evs s' H0 Hr. destruct (run_timeouts _ _ Hr) as [Hn _].
    rewrite H0 in Hn. cbn [length] in Hn. lia.
  - intros s evs s1 j s2 H0 Hr Hs. destruct (run_timeouts _ _ Hr) as [_ Hin].
    apply step_effect in Hs. destruct Hs as (t & Ht & Hdue & -> & _).
    destruct (Hin t (nth_error_In _ _ Ht)) as [H|[Hd Hc]].
    + rewrite H0 in H. destruct H.
    + exists (timeout_set_at t). rewrite Hd in Hdue.
      rewrite length_app. cbn [length]. repeat split; auto. lia.
Qed.

Lemma reconnect_once_per_close_after_5000ms_witness :
  timeouts logged_in_page = [] /\
  run reconnect_trace logged_in_page = Some after_reconnect_trace /\
  step (TimerFire 0) after_reconnect_trace = Some after_reconnect /\
  count_events is_fire reconnect_trace + length (timeouts after_reconnect_trace)
  = count_events is_close reconnect_trace /\
  exists closed_at,
    In closed_at (close_times reconnect_trace logged_in_page) /\
    (closed_at + 5000 <= clock after_reconnect_trace)%Z /\
    length (sockets after_reconnect) = S (length (sockets after_reconnect_trace)).
Proof.
  assert (H0 : timeouts logged_in_page = []) by reflexivity.
  assert (Hr : run reconnect_trace logged_in_page = Some after_reconnect_trace)
    by reflexivity.
  assert (Hs : step (TimerFire 0) after_reconnect_trace = Some after_reconnect)
    by reflexivity.
  destruct reconnect_once_per_close_after_5000ms as (_ & _ & _ & Hcount & Hlate).
  split; [exact H0|]. split; [exact Hr|]. split; [exact Hs|].
  split; [exact (Hcount _ _ _ H0 Hr)|exact (Hlate _ _ _ _ _ H0 Hr Hs)].
Defined.

(** ** One connection at a time *)

Lemma filter_is_open_le (l : list WebSocket) :
  length (filter is_open l) <= length (filter is_live l).
Proof.
  induction l as [|[u r] l IH]; [reflexivity|].
  destruct r; cbn; lia.
Qed.

Lemma live_set_nth (l : list WebSocket) i w r :
  nth_error l i = Some w ->
  ws_readyState w <> CLOSED ->
  length (filter is_live (set_nth i (with_state w r) l)) + 1
  = length (filter is_live l) + (match r with CLOSED => 0 | _ => 1 end).
Proof.
  intros Hw Hr. pose proof (filter_set_nth is_live _ _ (with_state w r) Hw) as Hf.
  replace (is_live w) with true in Hf
    by (unfold is_live; destruct (ws_readyState w); congruence).
  rewrite Hf. unfold is_live. cbn. destruct r; reflexivity.
Qed.

Lemma step_single_lifeline ev s s' :
  is_login ev = false ->
  single_lifeline s -> step ev s = Some s' -> single_lifeline s'.
Proof.
  unfold single_lifeline, live_count. intros Hl Hinv H.
  apply step_effect in H.
  destruct ev as [st b|i|i d|i|i|j|ms]; try discriminate Hl.
  - destruct H as (w & Hw & Hr & -> & -> & _).
    pose proof (@live_set_nth _ _ _ OPEN Hw ltac:(congruence)) as Hf.
    cbn match in Hf. lia.
  - destruct H as (w & _ & _ & -> & -> & _). exact Hinv.
  - destruct H as (w & Hw & Hr & -> & -> & _).
    pose proof (@live_set_nth _ _ _ CLOSING Hw Hr) as Hf.
    cbn match in Hf. lia.
  - destruct H as (w & Hw & Hr & -> & -> & _).
    pose proof (@live_set_nth _ _ _ CLOSED Hw Hr) as Hf.
    cbn match in Hf. rewrite length_app. cbn [length]. lia.
  - destruct H as (t & Ht & _ & -> & -> & _).
    pose proof (length_remove_nth _ _ Ht).
    rewrite filter_app, length_app. cbn. lia.
  - destruct H as (_ & -> & -> & _). exact Hinv.
Qed.

Lemma run_single_lifeline evs : forall s s',
  no_login evs = true ->
  single_lifeline s -> run evs s = Some s' -> single_lifeline s'.
Proof.
  induction evs as [|ev evs IH]; intros s s' Hn Hinv Hr.
  - cbn in Hr. injection Hr as <-. exact Hinv.
  - cbn [run] in Hr. destruct (step ev s) as [s1|] eqn:Hs; [|discriminate].
    cbn [no_login forallb] in Hn. apply andb_prop in Hn as [Hev Hn].
    apply negb_true_iff in Hev.
    exact (IH s1 s' Hn (step_single_lifeline _ Hev Hinv Hs) Hr).
Qed.

(** C5. Once [connectWebSocket] has started the client on a page without
    sockets and timers, after any sequence of socket, timer and clock
    events at most one socket is open and at most one reconnect is pending;
    indeed exactly one of a not yet closed socket and a pending reconnect
    exists, so whenever a close event schedules a reconnect none is pending. *)
Theorem one_connection_one_pending_reconnect (s s' : page) (evs : list event) :
  sockets s = [] ->
  timeouts s = [] ->
  no_login evs = true ->
  run evs (dispatch connectWebSocket s) = Some s' ->
  open_count s' <= 1 /\
  length (timeouts s') <= 1 /\
  live_count s' + length (timeouts s') = 1 /\
  (forall i s'', step (WsClose i) s' = Some s'' ->
                 timeouts s' = [] /\ length (timeouts s'') = 1).
Proof.
  intros Hs Ht Hn Hr.
  assert (Hinit : single_lifeline (dispatch connectWebSocket s)).
  { unfold single_lifeline, live_count. cbn. rewrite Hs, Ht. reflexivity. }
  pose proof (run_single_lifeline _ Hn Hinit Hr) as Hinv.
  unfold single_lifeline in Hinv.
  pose proof (filter_is_open_le (sockets s')) as Hle.
  unfold open_count. fold (live_count s') in Hle.
  repeat split; try lia.
  - pose proof H as H'. apply step_effect in H'.
    destruct H' as (w & Hw & Hlive & _).
    assert (0 < live_count s').
    { unfold live_count. clear - Hw Hlive. revert i Hw.
      induction (sockets s') as [|x l IH]; intros [|i] Hw; try discriminate.
      - cbn in Hw. injection Hw as ->. cbn. unfold is_live.
        destruct (ws_readyState w); try contradiction; cbn; lia.
      - cbn in Hw. cbn. specialize (IH i Hw). destruct (is_live x); cbn; lia. }
    destruct (timeouts s'); [reflexivity|cbn [length] in Hinv; lia].
  - pose proof (step_single_lifeline (WsClose i) eq_refl Hinv H) as Hinv'.
    unfold single_lifeline in Hinv'.
    apply step_effect in H. destruct H as (w & _ & _ & _ & Hto & _).
    rewrite Hto, length_app in *. cbn [length] in *. lia.
Qed.

Lemma one_connection_one_pending_reconnect_witness :
  sockets chart_page = [] /\
  timeouts chart_page = [] /\
  no_login reconnect_trace = true /\
  run reconnect_trace (dispatch connectWebSocket chart_page)
  = Some after_reconnect_alone /\
  open_count after_reconnect_alone <= 1 /\
  length (timeouts after_reconnect_alone) <= 1 /\
  live_count after_reconnect_alone + length (timeouts after_reconnect_alone) = 1.
Proof.
  assert (Hr : run reconnect_trace (dispatch connectWebSocket chart_page)
               = Some after_reconnect_alone) by reflexivity.
  pose proof (@one_connection_one_pending_reconnect chart_page
                after_reconnect_alone reconnect_trace eq_refl eq_refl eq_refl Hr)
    as (Ho & Hp & Hl & _).
  split; [reflexivity|]. split; [reflexivity|]. split; [reflexivity|].
  split; [exact Hr|]. split; [exact Ho|]. split; [exact Hp|exact Hl].
Defined.

(** ** A message on an open socket *)

Lemma nth_error_not_nil {A} (l : list A) i x : nth_error l i = Some x -> l <> [].
Proof. destruct l; [destruct i; discriminate|discriminate]. Qed.

Lemma step_client_has_chart ev s s' :
  client_has_chart s -> step ev s = Some s' -> client_has_chart s'.
Proof.
  unfold client_has_chart. intros Hinv Hs Hne.
  destruct ev as [st b|i|i d|i|i|j|ms];
    try (assert (E : transactionChart s' = transactionChart s)
           by (eapply step_other_chart; [ | |exact Hs];
               [reflexivity|intros; discriminate]);
         rewrite E; apply Hinv; apply step_effect in Hs;
         cbv beta iota in Hs).
  - cbn in Hs. injection Hs as <-. revert Hne. unfold dispatch.
    rewrite login_spec.
    destruct (JSON.parse b) as [data|]; [|exact Hinv].
    destruct (Z.eqb st 200).
    + destruct (get data (js "access_token")); [discriminate|exact Hinv].
    + destruct (get data (js "detail")); exact Hinv.
  - destruct Hs as (w & Hw & _). left. exact (nth_error_not_nil _ Hw).
  - pose proof Hs as He. apply step_effect in He. cbv beta iota in He.
    destruct He as (w & Hw & _).
    apply step_message_chart in Hs. rewrite Hs.
    assert (Hc : transactionChart s <> None)
      by (apply Hinv; left; exact (nth_error_not_nil _ Hw)).
    destruct (chart_point d) as [[l a]|e]; [|exact Hc].
    destruct (transactionChart s); [discriminate|exact Hc].
  - destruct Hs as (w & Hw & _). left. exact (nth_error_not_nil _ Hw).
  - destruct Hs as (w & Hw & _). left. exact (nth_error_not_nil _ Hw).
  - destruct Hs as (t & Ht & _). right. exact (nth_error_not_nil _ Ht).
  - destruct Hs as (_ & Hso & Hto & _). rewrite Hso, Hto in Hne. exact Hne.
Qed.

Lemma run_invariant (P : page -> Prop) :
  (forall ev s s', P s -> step ev s = Some s' -> P s') ->
  forall evs s s', P s -> run evs s = Some s' -> P s'.
Proof.
  intros Hstep. induction evs as [|ev evs IH]; intros s s' H Hr.
  - cbn in Hr. injection Hr as <-. exact H.
  - cbn [run] in Hr. destruct (step ev s) as [s1|] eqn:Hs; [|discriminate].
    exact (IH s1 s' (Hstep _ _ _ H Hs) Hr).
Qed.

(** C8. In every state the page reaches from its initial state, a message
    [{"transaction_id": id, "transaction_details": {"amount": a}}] that
    arrives on an open socket makes the handler complete normally and
    append exactly the point (first 8 code units of [id], [a]): the chart
    becomes [append_point] of it, so below 20 elements both arrays grow by
    that one element at the end, and at 20 the oldest element leaves as
    well; the new point is the last one either way. *)
Theorem message_appends_one_point
    (status form container protocol host : jsstring) (evs : list event)
    (s : page) (i : nat) (event_data : jsstring)
    (ms ds : list (jsstring * value)) (id : jsstring) (a : value) :
  run evs (initial_page status form container protocol host) = Some s ->
  readyState_of i s = Some OPEN ->
  JSON.parse event_data = Some (VObject ms) ->
  lookup (js "transaction_id") ms = Some (VString id) ->
  lookup (js "transaction_details") ms = Some (VObject ds) ->
  lookup (js "amount") ds = Some a ->
  exists c,
    transactionChart s = Some c /\
    let s' := set_transactionChart (Some (append_point (firstn 8 id) a c)) s in
    step (WsMessage i event_data) s = Some s' /\
    last (buffer_labels s') [] = firstn 8 id /\
    last (buffer_points s') VUndefined = a /\
    (length (labels c) < 20 ->
     buffer_labels s' = labels c ++ [firstn 8 id] /\
     buffer_points s' = points c ++ [a]) /\
    (20 <= length (labels c) ->
     buffer_labels s' = tl (labels c) ++ [firstn 8 id] /\
     buffer_points s' = tl (points c) ++ [a]).
Proof.
  intros Hr Hopen Hp Hid Hd Ha.
  assert (Hchart : client_has_chart s).
  { refine (@run_invariant client_has_chart step_client_has_chart _ _ _ _ Hr).
    intros [H|H]; exfalso; apply H; reflexivity. }
  assert (Hagree : lengths_agree s)
    by (eapply labels_and_points_in_step; exact Hr).
  assert (Hne : sockets s <> []).
  { unfold readyState_of in Hopen.
    destruct (nth_error (sockets s) i) eqn:E; [|discriminate].
    exact (nth_error_not_nil _ E). }
  destruct (transactionChart s) as [c|] eqn:Hc;
    [|exfalso; exact (Hchart (or_introl Hne) Hc)].
  exists c. split; [reflexivity|].
  unfold lengths_agree, buffer_labels, buffer_points in Hagree.
  rewrite Hc in Hagree.
  destruct (@onmessage_appends_one_point s c event_data ms ds id a
              Hc Hagree Hp Hid Hd Ha) as (Ho & Hrest).
  split; [|exact Hrest].
  unfold step, dispatch. rewrite Hopen, Ho. reflexivity.
Qed.

Lemma message_appends_one_point_witness :
  let event_data :=
    jsq "{'transaction_id':'abcdef1234567890','transaction_details':{'amount':42.5}}" in
  let amount := VNumber {| num_neg := false; num_mant := 425; num_exp := -1 |} in
  let s' :=
    set_transactionChart
      (Some {| labels := [js "abcdef12"]; points := [amount];
               drawn := ([js "abcdef12"], [amount]) |}) before_delivery in
  run delivery_trace start_page = Some before_delivery /\
  readyState_of 0 before_delivery = Some OPEN /\
  step (WsMessage 0 event_data) before_delivery = Some s' /\
  buffer_labels s' = [js "abcdef12"] /\
  buffer_points s' = [amount].
Proof.
  intros event_data amount s'.
  assert (Hr : run delivery_trace start_page = Some before_delivery)
    by reflexivity.
  assert (Hopen : readyState_of 0 before_delivery = Some OPEN) by reflexivity.
  destruct
    (@message_appends_one_point [] (js "block") (js "none") (js "http:")
       (js "localhost:8000") delivery_trace before_delivery 0 event_data
       [(js "transaction_id", VString (js "abcdef1234567890"));
        (js "transaction_details", VObject [(js "amount", amount)])]
       [(js "amount", amount)] (js "abcdef1234567890") amount
       Hr Hopen eq_refl eq_refl eq_refl eq_refl)
    as (c & Hc & Hstep & _ & _ & Hgrow & _).
  assert (Ec : Some c = Some new_Chart) by (rewrite <- Hc; reflexivity).
  injection Ec as ->.
  split; [exact Hr|]. split; [exact Hopen|]. split; [exact Hstep|].
  exact (Hgrow (Nat.lt_0_succ 19)).
Defined.

(** ** What a turn of the event loop leaves alone *)

Lemma step_frame ev s s' :
  step ev s = Some s' ->
  location_protocol s' = location_protocol s /\
  location_host s' = location_host s /\
  (is_login ev = false ->
   accessToken s' = accessToken s /\
   login_status_innerText s' = login_status_innerText s /\
   login_form_display s' = login_form_display s /\
   chart_container_display s' = chart_container_display s) /\
  ((login_form_display s' = login_form_display s /\
    chart_container_display s' = chart_container_display s) \/
   chart_shown s').
Proof.
  destruct ev as [st b|i|i d|i|i|j|ms]; cbn [step is_login];
    unfold readyState_of.
  - intros H. injection H as <-. unfold dispatch. rewrite login_spec.
    destruct (JSON.parse b) as [data|]; [|cbn; intuition discriminate].
    destruct (Z.eqb st 200).
    + destruct (get data (js "access_token")); cbn;
        [|intuition discriminate].
      repeat split; try discriminate. right. split; reflexivity.
    + destruct (get data (js "detail")); cbn; intuition discriminate.
  - destruct (nth_error (sockets s) i) as [w|] eqn:Hw; [|discriminate].
    cbn [option_map]. destruct (ws_readyState w); try discriminate.
    intros H. injection H as <-. unfold set_readyState. rewrite Hw.
    cbn. auto 10.
  - destruct (nth_error (sockets s) i) as [w|] eqn:Hw; [|discriminate].
    cbn [option_map]. destruct (ws_readyState w); try discriminate.
    intros H. injection H as <-. unfold dispatch. rewrite onmessage_spec.
    destruct (chart_point d) as [[l a]|e]; [|cbn; auto 10].
    destruct (transactionChart s); cbn; auto 10.
  - destruct (nth_error (sockets s) i) as [w|] eqn:Hw; [|discriminate].
    cbn [option_map].
    destruct (ws_readyState w) eqn:Hr; try discriminate;
      intros H; injection H as <-;
      unfold dispatch, onerror, console_error, ws_close, bind, modify;
      cbn [sockets set_console]; rewrite Hw, Hr; cbn; auto 10.
  - destruct (nth_error (sockets s) i) as [w|] eqn:Hw; [|discriminate].
    cbn [option_map].
    destruct (ws_readyState w) eqn:Hr; try discriminate;
      intros H; injection H as <-; unfold set_readyState; rewrite Hw;
      cbn; auto 10.
  - destruct (nth_error (timeouts s) j) as [t|]; [|discriminate].
    destruct (timeout_set_at t + timeout_delay t <=? clock s)%Z;
      [|discriminate].
    intros H. injection H as <-. cbn. auto 10.
  - destruct (0 <=? ms)%Z; [|discriminate].
    intros H. injection H as <-. cbn. auto 10.
Qed.

(** ** The handlers are all or nothing *)

(** X1. The message handler either completes, and then only the chart has
    changed (token, status text, displays, sockets, timers, console and
    clock are as before), or throws, and then the page is exactly as it
    was.  It throws exactly when the message gives no chart point or the
    chart does not exist yet. *)
Theorem onmessage_all_or_nothing (event_data : jsstring) (s : page) :
  (exists label amount c,
     chart_point event_data = Normal (label, amount) /\
     transactionChart s = Some c /\
     onmessage event_data s
     = (Normal tt,
        set_transactionChart (Some (append_point label amount c)) s)) \/
  (exists e,
     onmessage event_data s = (Throw e, s) /\
     (chart_point event_data = Throw e \/
      (transactionChart s = None /\ e = TypeError))).
Proof.
  rewrite onmessage_spec.
  destruct (chart_point event_data) as [[label amount]|e].
  - destruct (transactionChart s) as [c|].
    + left. exists label, amount, c. auto.
    + right. exists TypeError. auto.
  - right. exists e. auto.
Qed.

(** The value of a JSON text is never [undefined]. *)
Lemma parse_value_not_undefined fuel text rest :
  JSON.parse_value fuel text <> JSON.POk VUndefined rest.
Proof.
  destruct fuel as [|f]; [discriminate|]. intros H.
  cbn [JSON.parse_value] in H.
  repeat JSONFacts.break_match_in H; discriminate.
Qed.

Lemma parse_not_undefined text : JSON.parse text <> Some VUndefined.
Proof.
  unfold JSON.parse. intros H.
  destruct (JSON.parse_value (JSON.fuel_for text) text) as [v rest| |] eqn:E;
    try discriminate.
  destruct (JSON.skip_ws rest); [|discriminate].
  injection H as ->. exact (parse_value_not_undefined _ _ E).
Qed.



(** ** Missing keys *)

(** X3. On a page that has no chart yet (the first successful login), a
    200 response whose body is an object without [access_token] is taken
    for a success all the same: the status text says so, the token becomes
    [undefined], and the socket is opened with [token=undefined]. *)
Theorem login_success_without_token
    (body : jsstring) (ms : list (jsstring * value)) (s : page) :
  transactionChart s = None ->
  JSON.parse body = Some (VObject ms) ->
  lookup (js "access_token") ms = None ->
  exists s',
    login 200 body s = (Normal tt, s') /\
    accessToken s' = VUndefined /\
    login_status_innerText s' = js "Login successful!" /\
    chart_shown s' /\
    sockets s' = sockets s ++
      [{| ws_url :=
            (if jsstring_eqb (location_protocol s) (js "https:")
             then js "wss" else js "ws")
            ++ js "://" ++ location_host s
            ++ js "/ws/transactions?token=undefined";
          ws_readyState := CONNECTING |}].
Proof.
  intros _ Hp Hl. rewrite login_spec, Hp. cbn [get Z.eqb]. rewrite Hl.
  eexists. split; [reflexivity|]. cbn. repeat split.
Qed.

Lemma login_success_without_token_witness :
  transactionChart start_page = None /\
  accessToken (snd (login 200 (js "{}") start_page)) = VUndefined /\
  login_status_innerText (snd (login 200 (js "{}") start_page))
  = js "Login successful!".
Proof.
  split; [reflexivity|].
  destruct (@login_success_without_token (js "{}") [] start_page
              eq_refl eq_refl eq_refl) as (s' & H1 & H2 & H3 & _).
  rewrite H1. split; [exact H2|exact H3].
Defined.

(** X4. A response with another status whose body is an object without
    [detail] shows ["Login failed: undefined"], and changes nothing else. *)
Theorem login_failure_without_detail
    (status : Z) (body : jsstring) (ms : list (jsstring * value)) (s : page) :
  status <> 200%Z ->
  JSON.parse body = Some (VObject ms) ->
  lookup (js "detail") ms = None ->
  login status body s
  = (Normal tt, set_login_status_innerText (js "Login failed: undefined") s).
Proof.
  intros Hs Hp Hl. rewrite login_spec, Hp.
  destruct (Z.eqb_spec status 200) as [E|_]; [contradiction|].
  cbn [get]. rewrite Hl. reflexivity.
Qed.

Lemma login_failure_without_detail_witness :
  500%Z <> 200%Z /\
  login 500 (js "{}") start_page
  = (Normal tt,
     set_login_status_innerText (js "Login failed: undefined") start_page).
Proof.
  split; [lia|].
  apply (@login_failure_without_detail 500 (js "{}") [] start_page);
    [lia|reflexivity|reflexivity].
Defined.

(** X5. In every state the page reaches from its initial state, a message
    with a string [transaction_id] and with [transaction_details] that have
    no [amount], arriving on an open socket, is not rejected: the handler
    completes and the chart gains the point (label, [undefined]). *)
Theorem message_without_amount_appends_undefined
    (status form container protocol host : jsstring) (evs : list event)
    (s : page) (i : nat) (event_data id : jsstring) :
  run evs (initial_page status form container protocol host) = Some s ->
  readyState_of i s = Some OPEN ->
  lacks_amount event_data id ->
  exists c,
    transactionChart s = Some c /\
    step (WsMessage i event_data) s
    = Some (set_transactionChart
              (Some (append_point (firstn 8 id) VUndefined c)) s) /\
    exists ls ps,
      labels (append_point (firstn 8 id) VUndefined c) = ls ++ [firstn 8 id] /\
      points (append_point (firstn 8 id) VUndefined c) = ps ++ [VUndefined].
Proof.
  intros Hr Hopen Hl.
  assert (Hchart : client_has_chart s).
  { refine (@run_invariant client_has_chart step_client_has_chart _ _ _ _ Hr).
    intros [H|H]; exfalso; apply H; reflexivity. }
  assert (Hagree : lengths_agree s)
    by (eapply labels_and_points_in_step; exact Hr).
  assert (Hne : sockets s <> []).
  { unfold readyState_of in Hopen.
    destruct (nth_error (sockets s) i) eqn:E; [|discriminate].
    exact (nth_error_not_nil _ E). }
  destruct (transactionChart s) as [c|] eqn:Hc;
    [|exfalso; exact (Hchart (or_introl Hne) Hc)].
  exists c. split; [reflexivity|]. split.
  - unfold step, dispatch. rewrite Hopen.
    rewrite (missing_amount_appends_undefined _ Hl Hc). reflexivity.
  - unfold lengths_agree, buffer_labels, buffer_points in Hagree.
    rewrite Hc in Hagree. unfold append_point.
    case_ltb H; cbn [labels points].
    + destruct (labels c) as [|l ls] eqn:El;
        [cbn in H; lia|].
      destruct (points c) as [|p ps] eqn:Ep; [discriminate|].
      cbn [app tl]. eauto.
    + eauto.
Qed.

Lemma message_without_amount_appends_undefined_witness :
  let event_data :=
    jsq "{'transaction_id':'abcdef1234567890','transaction_details':{}}" in
  run delivery_trace start_page = Some before_delivery /\
  readyState_of 0 before_delivery = Some OPEN /\
  lacks_amount event_data (js "abcdef1234567890") /\
  step (WsMessage 0 event_data) before_delivery
  = Some (set_transactionChart
            (Some (append_point (js "abcdef12") VUndefined new_Chart))
            before_delivery).
Proof.
  intros event_data.
  assert (Hr : run delivery_trace start_page = Some before_delivery)
    by reflexivity.
  assert (Hopen : readyState_of 0 before_delivery = Some OPEN) by reflexivity.
  assert (Hl : lacks_amount event_data (js "abcdef1234567890")).
  { exists (VObject [(js "transaction_id", VString (js "abcdef1234567890"));
                     (js "transaction_details", VObject [])]), (VObject []).
    repeat split; reflexivity. }
  destruct (@message_without_amount_appends_undefined
              [] (js "block") (js "none") (js "http:") (js "localhost:8000")
              delivery_trace before_delivery 0 event_data
              (js "abcdef1234567890") Hr Hopen Hl) as (c & Hc & Hstep & _).
  assert (Ec : Some c = Some new_Chart) by (rewrite <- Hc; reflexivity).
  injection Ec as ->.
  split; [exact Hr|]. split; [exact Hopen|]. split; [exact Hl|exact Hstep].
Defined.

(** ** The chart is a function of the appended points *)

Lemma run_chart evs : forall s s' c,
  no_login evs = true ->
  transactionChart s = Some c ->
  run evs s = Some s' ->
  transactionChart s' = Some (append_points (appended evs) c).
Proof.
  induction evs as [|ev evs IH]; intros s s' c Hn Hc Hr.
  - cbn in Hr. injection Hr as <-. exact Hc.
  - cbn [run] in Hr. destruct (step ev s) as [s1|] eqn:Hs; [|discriminate].
    cbn [no_login forallb] in Hn. apply andb_prop in Hn as [Hev Hn].
    apply negb_true_iff in Hev.
    destruct ev as [st b|i|i d|i|i|j|ms]; try discriminate Hev;
      try (cbn [appended flat_map app];
           apply (IH s1 s' c Hn); [|exact Hr];
           erewrite step_other_chart; [exact Hc|exact Hev| |exact Hs];
           intros; discriminate).
    apply step_message_chart in Hs. rewrite Hc in Hs.
    unfold appended. cbn [flat_map]. fold (appended evs).
    destruct (chart_point d) as [[label amount]|e].
    + cbn [app]. unfold append_points. cbn [fold_left fst snd].
      apply (IH s1 s' _ Hn Hs Hr).
    + cbn [app]. apply (IH s1 s' c Hn Hs Hr).
Qed.

(** X6. Along a trace without a login, the chart at the end is the chart at
    the start with the appended points applied in order.  Nothing else in
    the trace matters (opens, errors, closes, reconnects, the clock,
    rejected messages, the socket a message came on): two traces that
    append the same points lead to the same chart, and a trace that appends
    nothing (a reconnect, say) leaves the buffer as it is. *)
Theorem chart_is_function_of_appended_points :
  (forall evs s s' c,
     no_login evs = true ->
     transactionChart s = Some c ->
     run evs s = Some s' ->
     transactionChart s' = Some (append_points (appended evs) c)) /\
  (forall evs1 evs2 s1 s2 s1' s2' c,
     no_login evs1 = true -> no_login evs2 = true ->
     transactionChart s1 = Some c -> transactionChart s2 = Some c ->
     run evs1 s1 = Some s1' -> run evs2 s2 = Some s2' ->
     appended evs1 = appended evs2 ->
     transactionChart s1' = transactionChart s2') /\
  (forall evs s s' c,
     no_login evs = true ->
     transactionChart s = Some c ->
     run evs s = Some s' ->
     appended evs = [] ->
     transactionChart s' = Some c).
Proof.
  split; [exact run_chart|]. split.
  - intros evs1 evs2 s1 s2 s1' s2' c Hn1 Hn2 Hc1 Hc2 Hr1 Hr2 Ha.
    rewrite (run_chart _ _ Hn1 Hc1 Hr1), (run_chart _ _ Hn2 Hc2 Hr2), Ha.
    reflexivity.
  - intros evs s s' c Hn Hc Hr Ha.
    rewrite (run_chart _ _ Hn Hc Hr), Ha. reflexivity.
Qed.

Lemma chart_is_function_of_appended_points_witness :
  no_login sample_trace = true /\
  transactionChart logged_in_page = Some new_Chart /\
  run sample_trace logged_in_page = Some after_sample_trace /\
  transactionChart after_sample_trace
  = Some (append_points (appended sample_trace) new_Chart).
Proof.
  split; [reflexivity|]. split; [exact logged_in_chart|].
  split; [exact run_sample_trace|].
  exact (proj1 chart_is_function_of_appended_points
           sample_trace logged_in_page after_sample_trace new_Chart
           eq_refl logged_in_chart run_sample_trace).
Defined.

(** X7. From a freshly initialised chart the two arrays, paired up, are the
    last 20 appended points for every number of appends; up to 20 appends
    that is every point appended, in arrival order. *)
Theorem buffer_is_window_of_appended (s s' : page) (evs : list event) :
  transactionChart s = Some new_Chart ->
  no_login evs = true ->
  run evs s = Some s' ->
  combine (buffer_labels s') (buffer_points s') = window (appended evs) /\
  (length (appended evs) <= 20 ->
   buffer_labels s' = map fst (appended evs) /\
   buffer_points s' = map snd (appended evs)).
Proof.
  intros Hc Hn Hr.
  destruct (run_window evs s (pts := []) Hn Hc holds_window_new Hr)
    as (c' & Hc' & Hl & Hp).
  cbn [app] in Hl, Hp. unfold buffer_labels, buffer_points. rewrite Hc'.
  split.
  - rewrite Hl, Hp, !window_map.
    induction (window (appended evs)) as [|[l a] r IH]; [reflexivity|].
    cbn [map combine fst snd]. rewrite IH. reflexivity.
  - intros Hlen. rewrite Hl, Hp. unfold window. rewrite !length_map.
    replace (length (appended evs) - 20) with 0 by lia. split; reflexivity.
Qed.

Lemma buffer_is_window_of_appended_witness :
  transactionChart logged_in_page = Some new_Chart /\
  no_login sample_trace = true /\
  run sample_trace logged_in_page = Some after_sample_trace /\
  length (appended sample_trace) <= 20 /\
  buffer_labels after_sample_trace = map fst (appended sample_trace) /\
  buffer_points after_sample_trace = map snd (appended sample_trace).
Proof.
  assert (Hlen : length (appended sample_trace) <= 20)
    by (vm_compute; repeat constructor).
  split; [exact logged_in_chart|]. split; [reflexivity|].
  split; [exact run_sample_trace|]. split; [exact Hlen|].
  exact (proj2 (@buffer_is_window_of_appended logged_in_page
                  after_sample_trace sample_trace logged_in_chart eq_refl
                  run_sample_trace) Hlen).
Defined.

(** ** Labels *)

Lemma chart_point_label event_data label amount :
  chart_point event_data = Normal (label, amount) ->
  exists transaction id,
    JSON.parse event_data = Some transaction /\
    get transaction (js "transaction_id") = Normal (VString id) /\
    label = firstn 8 id.
Proof.
  unfold chart_point.
  destruct (JSON.parse event_data) as [t|] eqn:Hp; [|discriminate].
  destruct (get t (js "transaction_id")) as [v|] eqn:Hid; [|discriminate].
  destruct v as [| |b|n|id|l|m]; try discriminate. cbn [substring skipn].
  destruct (get t (js "transaction_details")) as [d|]; [|discriminate].
  destruct (get d (js "amount")); [|discriminate].
  intros H. injection H as <- _. exists t, id. auto.
Qed.

Lemma Forall_tl {A} (P : A -> Prop) (l : list A) : Forall P l -> Forall P (tl l).
Proof. intros H. destruct H; [constructor|assumption]. Qed.

Lemma append_point_labels_short label amount c :
  length label <= 8 ->
  Forall (fun l : jsstring => length l <= 8) (labels c) ->
  Forall (fun l : jsstring => length l <= 8)
         (labels (append_point label amount c)).
Proof.
  intros Hl Hc. unfold append_point.
  assert (Ha : Forall (fun l : jsstring => length l <= 8) (labels c ++ [label]))
    by (apply Forall_app; split; [exact Hc|constructor; [exact Hl|constructor]]).
  case_ltb H; cbn [labels]; [|exact Ha].
  apply Forall_tl. exact Ha.
Qed.

Lemma step_labels_short ev s s' :
  labels_short s -> step ev s = Some s' -> labels_short s'.
Proof.
  unfold labels_short, buffer_labels. intros H Hs.
  destruct ev as [st b|i|i d|i|i|j|ms];
    try (assert (E : transactionChart s' = transactionChart s)
           by (eapply step_other_chart; [ | |exact Hs];
               [reflexivity|intros; discriminate]);
         rewrite E; exact H).
  - cbn in Hs. injection Hs as <-.
    destruct (login_chart st b s) as [-> | ->]; [exact H|constructor].
  - apply step_message_chart in Hs. rewrite Hs.
    destruct (chart_point d) as [[label amount]|e] eqn:Hcp; [|exact H].
    destruct (transactionChart s) as [c|]; [|exact H].
    apply append_point_labels_short; [|exact H].
    destruct (chart_point_label _ Hcp) as (t & id & _ & _ & ->).
    rewrite length_firstn. lia.
Qed.

(** X8. In every state the page reaches from its initial state, every label
    in the chart has at most 8 code units; and the label a message gets is
    its whole [transaction_id] when that has at most 8 code units, and has
    exactly 8 otherwise. *)
Theorem labels_have_at_most_8_code_units :
  (forall status form container protocol host evs s,
     run evs (initial_page status form container protocol host) = Some s ->
     Forall (fun l : jsstring => length l <= 8) (buffer_labels s)) /\
  (forall event_data label amount,
     chart_point event_data = Normal (label, amount) ->
     exists transaction id,
       JSON.parse event_data = Some transaction /\
       get transaction (js "transaction_id") = Normal (VString id) /\
       (length id <= 8 -> label = id) /\
       (8 < length id -> length label = 8)).
Proof.
  split.
  - intros status form container protocol host evs s Hr.
    refine (@run_invariant labels_short step_labels_short _ _ _ _ Hr).
    constructor.
  - intros event_data label amount Hcp.
    destruct (chart_point_label _ Hcp) as (t & id & Hp & Hid & ->).
    exists t, id. repeat split; auto.
    + intros H. apply firstn_all2. exact H.
    + intros H. rewrite length_firstn. lia.
Qed.

Lemma labels_have_at_most_8_code_units_witness :
  run session_trace start_page = Some after_long_trace /\
  Forall (fun l : jsstring => length l <= 8) (buffer_labels after_long_trace).
Proof.
  split; [exact run_session_trace|].
  exact (proj1 labels_have_at_most_8_code_units
           [] (js "block") (js "none") (js "http:") (js "localhost:8000")
           session_trace after_long_trace run_session_trace).
Defined.

(** ** Sockets over time *)

Lemma nth_error_set_nth_other {A} (l : list A) i j x :
  i <> j -> nth_error (set_nth i x l) j = nth_error l j.
Proof.
  revert i j. induction l as [|y l IH]; intros [|i] [|j] H; cbn; auto.
  contradiction.
Qed.

Lemma Forall_set_nth {A} (P : A -> Prop) (l : list A) i x :
  P x -> Forall P l -> Forall P (set_nth i x l).
Proof.
  intros Hx. revert i. induction l as [|y l IH]; intros [|i] H; cbn;
    inversion H; subst; constructor; auto.
Qed.

Lemma sockets_grow_set_nth s s' i w r :
  nth_error (sockets s) i = Some w ->
  rank (ws_readyState w) <= rank r ->
  sockets s' = set_nth i (with_state w r) (sockets s) ->
  sockets_grow s s'.
Proof.
  intros Hw Hr Hs j w0 Hj. rewrite Hs.
  destruct (Nat.eq_dec i j) as [<-|Hne].
  - rewrite Hw in Hj. injection Hj as <-.
    exists (with_state w r). rewrite (nth_error_set_nth _ _ _ Hw). auto.
  - exists w0. rewrite (nth_error_set_nth_other _ _ Hne). auto.
Qed.

Lemma sockets_grow_app s s' l :
  sockets s' = sockets s ++ l -> sockets_grow s s'.
Proof.
  intros Hs j w Hj. exists w. rewrite Hs, nth_error_app1; auto.
  apply nth_error_Some. congruence.
Qed.

Lemma step_sockets_grow ev s s' : step ev s = Some s' -> sockets_grow s s'.
Proof.
  intros H. apply step_effect in H.
  destruct ev as [st b|i|i d|i|i|j|ms].
  - destruct H as (_ & _ & [Hs | (w & Hs & _)]).
    + apply (@sockets_grow_app s s' []). rewrite app_nil_r. exact Hs.
    + exact (@sockets_grow_app s s' _ Hs).
  - destruct H as (w & Hw & Hr & Hs & _).
    apply (@sockets_grow_set_nth s s' i w OPEN Hw); [rewrite Hr; cbn; lia|exact Hs].
  - destruct H as (w & _ & _ & Hs & _).
    apply (@sockets_grow_app s s' []). rewrite app_nil_r. exact Hs.
  - destruct H as (w & Hw & Hr & Hs & _).
    apply (@sockets_grow_set_nth s s' i w CLOSING Hw); [|exact Hs].
    destruct (ws_readyState w); cbn; try lia. contradiction.
  - destruct H as (w & Hw & Hr & Hs & _).
    apply (@sockets_grow_set_nth s s' i w CLOSED Hw); [|exact Hs].
    destruct (ws_readyState w); cbn; lia.
  - destruct H as (t & _ & _ & Hs & _). exact (@sockets_grow_app s s' _ Hs).
  - destruct H as (_ & Hs & _).
    apply (@sockets_grow_app s s' []). rewrite app_nil_r. exact Hs.
Qed.

Lemma run_sockets_grow evs : forall s s',
  run evs s = Some s' -> sockets_grow s s'.
Proof.
  induction evs as [|ev evs IH]; intros s s' Hr.
  - cbn in Hr. injection Hr as <-. intros i w Hw. exists w. auto.
  - cbn [run] in Hr. destruct (step ev s) as [s1|] eqn:Hs; [|discriminate].
    intros i w Hw.
    destruct (@step_sockets_grow ev s s1 Hs i w Hw) as (w1 & Hw1 & Hu1 & Hr1).
    destruct (IH s1 s' Hr i w1 Hw1) as (w2 & Hw2 & Hu2 & Hr2).
    exists w2. repeat split; [exact Hw2|congruence|lia].
Qed.

(** X9. The script never drops a socket, never changes its URL and never
    brings one back: along every run each socket keeps its place and its
    URL and only moves forward through connecting, open, closing, closed.
    A closed socket stays closed, so every reconnect is a new socket. *)
Theorem sockets_only_move_forward (evs : list event) (s s' : page) :
  run evs s = Some s' ->
  (forall i w, nth_error (sockets s) i = Some w ->
     exists w', nth_error (sockets s') i = Some w' /\
                ws_url w' = ws_url w /\
                rank (ws_readyState w) <= rank (ws_readyState w')) /\
  (forall i, readyState_of i s = Some CLOSED ->
             readyState_of i s' = Some CLOSED).
Proof.
  intros Hr. pose proof (@run_sockets_grow evs s s' Hr) as Hg. split; [exact Hg|].
  intros i Hi. unfold readyState_of in *.
  destruct (nth_error (sockets s) i) as [w|] eqn:Hw; [|discriminate].
  cbn [option_map] in Hi. injection Hi as Hi.
  destruct (Hg i w Hw) as (w' & -> & _ & Hrank). cbn [option_map].
  rewrite Hi in Hrank. destruct (ws_readyState w'); cbn in Hrank;
    try lia; reflexivity.
Qed.

Lemma sockets_only_move_forward_witness :
  run reconnect_trace logged_in_page = Some after_reconnect_trace /\
  (readyState_of 0 after_reconnect_trace = Some CLOSED ->
   readyState_of 0 after_reconnect = Some CLOSED).
Proof.
  split; [reflexivity|].
  assert (Hr : run [TimerFire 0] after_reconnect_trace = Some after_reconnect)
    by reflexivity.
  exact (proj2 (@sockets_only_move_forward _ _ _ Hr) 0).
Defined.

(** X10. Once a socket has had an error event, the script has closed it,
    and from then on no message and no open event of that socket is ever
    handled again, whatever happens next. *)
Theorem no_message_after_error (i : nat) (s s1 s2 : page) (evs : list event) :
  step (WsError i) s = Some s1 ->
  run evs s1 = Some s2 ->
  (forall event_data, step (WsMessage i event_data) s2 = None) /\
  step (WsOpen i) s2 = None.
Proof.
  intros He Hr. apply step_effect in He.
  destruct He as (w & Hw & _ & Hs & _).
  assert (H1 : nth_error (sockets s1) i = Some (with_state w CLOSING))
    by (rewrite Hs; exact (nth_error_set_nth _ _ _ Hw)).
  destruct (@run_sockets_grow evs s1 s2 Hr i _ H1) as (w2 & Hw2 & _ & Hrank).
  cbn in Hrank. unfold step, readyState_of. rewrite Hw2. cbn [option_map].
  destruct (ws_readyState w2); cbn in Hrank; try lia; auto.
Qed.

Lemma no_message_after_error_witness :
  step (WsError 0) before_delivery = Some after_error /\
  run after_error_trace after_error = Some long_after_error /\
  step (WsMessage 0 (js "late")) long_after_error = None.
Proof.
  assert (He : step (WsError 0) before_delivery = Some after_error)
    by reflexivity.
  assert (Hr : run after_error_trace after_error = Some long_after_error)
    by reflexivity.
  split; [exact He|]. split; [exact Hr|].
  exact (proj1 (@no_message_after_error 0 before_delivery after_error
                  long_after_error after_error_trace He Hr) (js "late")).
Defined.

(** ** Where the sockets go *)

Lemma step_sockets_to_own_host ev s s' :
  sockets_to_own_host s -> step ev s = Some s' -> sockets_to_own_host s'.
Proof.
  unfold sockets_to_own_host. intros Hinv Hs.
  destruct (step_frame _ _ Hs) as (Hp & Hh & _). rewrite Hp, Hh.
  destruct ev as [st b|i|i d|i|i|j|ms].
  - cbn in Hs. injection Hs as <-. unfold dispatch. rewrite login_spec.
    destruct (JSON.parse b) as [data|]; [|exact Hinv].
    destruct (Z.eqb st 200).
    + destruct (get data (js "access_token")) as [token|]; [|exact Hinv].
      cbn [sockets]. apply Forall_app. split; [exact Hinv|].
      constructor; [|constructor]. exists (ToString token). reflexivity.
    + destruct (get data (js "detail")); exact Hinv.
  - apply step_effect in Hs. destruct Hs as (w & Hw & _ & -> & _).
    apply Forall_set_nth; [|exact Hinv].
    exact (proj1 (Forall_forall _ _) Hinv w (nth_error_In _ _ Hw)).
  - apply step_effect in Hs. destruct Hs as (w & _ & _ & -> & _). exact Hinv.
  - apply step_effect in Hs. destruct Hs as (w & Hw & _ & -> & _).
    apply Forall_set_nth; [|exact Hinv].
    exact (proj1 (Forall_forall _ _) Hinv w (nth_error_In _ _ Hw)).
  - apply step_effect in Hs. destruct Hs as (w & Hw & _ & -> & _).
    apply Forall_set_nth; [|exact Hinv].
    exact (proj1 (Forall_forall _ _) Hinv w (nth_error_In _ _ Hw)).
  - apply step_effect in Hs. destruct Hs as (t & _ & _ & -> & _).
    apply Forall_app. split; [exact Hinv|].
    constructor; [|constructor]. exists (ToString (accessToken s)).
    reflexivity.
  - apply step_effect in Hs. destruct Hs as (_ & -> & _). exact Hinv.
Qed.

(** X11. Every socket the page ever opens, at login or at a reconnect, goes
    to [/ws/transactions] on the host the page came from, with [wss] when
    the page was served over [https:] and [ws] otherwise, and carries a
    token in its query; the script connects nowhere else. *)
Theorem sockets_go_to_own_host
    (status form container protocol host : jsstring)
    (evs : list event) (s : page) :
  run evs (initial_page status form container protocol host) = Some s ->
  Forall (fun w =>
            exists token,
              ws_url w =
              (if jsstring_eqb protocol (js "https:") then js "wss" else js "ws")
              ++ js "://" ++ host ++ js "/ws/transactions?token=" ++ token)
         (sockets s).
Proof.
  intros Hr.
  assert (Hinv : sockets_to_own_host s).
  { refine (@run_invariant sockets_to_own_host step_sockets_to_own_host
              _ _ _ _ Hr). constructor. }
  assert (Hloc : location_protocol s = protocol /\ location_host s = host).
  { refine (@run_invariant
              (fun s => location_protocol s = protocol /\ location_host s = host)
              _ _ _ _ _ Hr); [|split; reflexivity].
    intros ev s0 s1 [H1 H2] Hs.
    destruct (step_frame _ _ Hs) as (Hp & Hh & _). split; congruence. }
  unfold sockets_to_own_host in Hinv. destruct Hloc as [Hp Hh].
  rewrite Hp, Hh in Hinv. exact Hinv.
Qed.

Lemma sockets_go_to_own_host_witness :
  run (reconnect_session ++ [TimerFire 0]) start_page = Some after_reconnect /\
  Forall (fun w =>
            exists token,
              ws_url w =
              js "ws" ++ js "://" ++ js "localhost:8000"
              ++ js "/ws/transactions?token=" ++ token)
         (sockets after_reconnect).
Proof.
  assert (Hr : run (reconnect_session ++ [TimerFire 0]) start_page
               = Some after_reconnect) by reflexivity.
  split; [exact Hr|].
  exact (@sockets_go_to_own_host [] (js "block") (js "none") (js "http:")
           (js "localhost:8000") _ _ Hr).
Defined.

Lemma step_same_url ev s s' :
  is_login ev = false ->
  Forall (fun w => ws_url w = wsUrl_of s) (sockets s) ->
  step ev s = Some s' ->
  wsUrl_of s' = wsUrl_of s /\
  Forall (fun w => ws_url w = wsUrl_of s) (sockets s').
Proof.
  intros Hl Hinv Hs.
  destruct (step_frame _ _ Hs) as (Hp & Hh & Hf & _).
  destruct (Hf Hl) as (Ht & _).
  split; [unfold wsUrl_of; rewrite Hp, Hh, Ht; reflexivity|].
  apply step_effect in Hs.
  destruct ev as [st b|i|i d|i|i|j|ms]; try discriminate Hl.
  - destruct Hs as (w & Hw & _ & -> & _).
    apply Forall_set_nth; [|exact Hinv].
    exact (proj1 (Forall_forall _ _) Hinv w (nth_error_In _ _ Hw)).
  - destruct Hs as (w & _ & _ & -> & _). exact Hinv.
  - destruct Hs as (w & Hw & _ & -> & _).
    apply Forall_set_nth; [|exact Hinv].
    exact (proj1 (Forall_forall _ _) Hinv w (nth_error_In _ _ Hw)).
  - destruct Hs as (w & Hw & _ & -> & _).
    apply Forall_set_nth; [|exact Hinv].
    exact (proj1 (Forall_forall _ _) Hinv w (nth_error_In _ _ Hw)).
  - destruct Hs as (t & _ & _ & -> & _).
    apply Forall_app. split; [exact Hinv|]. repeat constructor.
  - destruct Hs as (_ & -> & _). exact Hinv.
Qed.

(** X12. Without a new login the token never changes, and every reconnect
    goes to the very URL the first connection went to: after
    [connectWebSocket] on a page without sockets, along any trace of
    socket, timer and clock events all sockets have one and the same URL. *)
Theorem reconnects_reuse_the_url (s s' : page) (evs : list event) :
  sockets s = [] ->
  no_login evs = true ->
  run evs (dispatch connectWebSocket s) = Some s' ->
  accessToken s' = accessToken s /\
  Forall (fun w => ws_url w = wsUrl_of s) (sockets s').
Proof.
  intros H0 Hn Hr.
  assert (Hgen : forall evs s0 s1,
             no_login evs = true ->
             Forall (fun w => ws_url w = wsUrl_of s0) (sockets s0) ->
             run evs s0 = Some s1 ->
             accessToken s1 = accessToken s0 /\
             Forall (fun w => ws_url w = wsUrl_of s0) (sockets s1)).
  { clear. induction evs as [|ev evs IH]; intros s0 s1 Hn Hinv Hr.
    - cbn in Hr. injection Hr as <-. auto.
    - cbn [run] in Hr. destruct (step ev s0) as [s2|] eqn:Hs; [|discriminate].
      cbn [no_login forallb] in Hn. apply andb_prop in Hn as [Hev Hn].
      apply negb_true_iff in Hev.
      destruct (@step_same_url ev s0 s2 Hev Hinv Hs) as [Hu Hinv'].
      destruct (step_frame _ _ Hs) as (_ & _ & Hf & _).
      destruct (Hf Hev) as (Ht & _).
      rewrite <- Hu in Hinv'.
      destruct (IH s2 s1 Hn Hinv' Hr) as [Ht' Hall].
      rewrite Hu in Hall. split; [congruence|exact Hall]. }
  apply (Hgen evs (dispatch connectWebSocket s) s' Hn); [|exact Hr].
  cbn. rewrite H0. repeat constructor.
Qed.

Lemma reconnects_reuse_the_url_witness :
  sockets chart_page = [] /\
  no_login (reconnect_trace ++ [TimerFire 0]) = true /\
  Forall (fun w => ws_url w = wsUrl_of chart_page)
         (sockets reconnected_alone).
Proof.
  assert (Hr : run (reconnect_trace ++ [TimerFire 0])
                   (dispatch connectWebSocket chart_page)
               = Some reconnected_alone) by reflexivity.
  split; [reflexivity|]. split; [reflexivity|].
  exact (proj2 (@reconnects_reuse_the_url chart_page reconnected_alone
                  (reconnect_trace ++ [TimerFire 0]) eq_refl eq_refl Hr)).
Defined.

(** ** The login form *)

(** X13. Once the login form is hidden and the chart shown, no event ever
    brings the form back or hides the chart: not a close, not an error, not
    a failed reconnect, not even a later failed login. *)
Theorem login_form_never_comes_back (s s' : page) (evs : list event) :
  chart_shown s -> run evs s = Some s' -> chart_shown s'.
Proof.
  intros H Hr.
  refine (@run_invariant chart_shown _ _ _ _ H Hr).
  intros ev s0 s1 [Hf Hc] Hs.
  destruct (step_frame _ _ Hs) as (_ & _ & _ & [[Hf' Hc'] | Hshown]);
    [|exact Hshown].
  split; congruence.
Qed.

Lemma login_form_never_comes_back_witness :
  chart_shown logged_in_page /\
  run failed_relogin_trace logged_in_page = Some after_failed_relogin /\
  chart_shown after_failed_relogin.
Proof.
  assert (H : chart_shown logged_in_page) by (split; reflexivity).
  assert (Hr : run failed_relogin_trace logged_in_page
               = Some after_failed_relogin) by reflexivity.
  split; [exact H|]. split; [exact Hr|].
  exact (@login_form_never_comes_back _ _ _ H Hr).
Defined.

(** X14. A failed attempt leaves no trace once a later attempt succeeds:
    the page after a failure followed by a success is the page the success
    alone gives. *)
Theorem failed_login_then_success (s s1 s2 : page) (status : Z)
    (body1 body2 : jsstring) :
  status <> 200%Z ->
  login status body1 s = (Normal tt, s1) ->
  login 200 body2 s = (Normal tt, s2) ->
  login 200 body2 s1 = (Normal tt, s2).
Proof.
  intros Hs H1 H2. rewrite login_spec in *.
  destruct (JSON.parse body1) as [d1|]; [|discriminate].
  destruct (Z.eqb_spec status 200) as [E|_]; [contradiction|].
  destruct (get d1 (js "detail")) as [detail|]; [|discriminate].
  injection H1 as <-.
  destruct (JSON.parse body2) as [d2|]; [|discriminate].
  cbn [Z.eqb] in *.
  destruct (get d2 (js "access_token")) as [token|]; [|discriminate].
  injection H2 as <-. reflexivity.
Qed.

Lemma failed_login_then_success_witness :
  401%Z <> 200%Z /\
  login 200 (jsq "{'access_token':'abc123'}")
        (snd (login 401 (jsq "{'detail':'Invalid credentials'}") start_page))
  = login 200 (jsq "{'access_token':'abc123'}") start_page.
Proof.
  split; [lia|].
  rewrite (@failed_login_then_success start_page
             (snd (login 401 (jsq "{'detail':'Invalid credentials'}") start_page))
             (snd (login 200 (jsq "{'access_token':'abc123'}") start_page))
             401 (jsq "{'detail':'Invalid credentials'}")
             (jsq "{'access_token':'abc123'}")
             ltac:(lia) eq_refl eq_refl).
  reflexivity.
Defined.

(** ** The login request *)

Module URIFacts.
Import URI.

Local Open Scope N_scope.

Ltac nlia := zify; Z.to_euclidean_division_equations; lia.

Ltac bools :=
  repeat match goal with
  | H : _ && _ = true |- _ => apply andb_prop in H; destruct H
  | H : _ || _ = false |- _ => apply orb_false_elim in H; destruct H
  | H : N.leb _ _ = true |- _ => apply N.leb_le in H
  | H : N.leb _ _ = false |- _ => apply N.leb_gt in H
  | H : N.ltb _ _ = true |- _ => apply N.ltb_lt in H
  | H : N.ltb _ _ = false |- _ => apply N.ltb_ge in H
  | H : N.eqb _ _ = true |- _ => apply N.eqb_eq in H
  | H : N.eqb _ _ = false |- _ => apply N.eqb_neq in H
  end.

Lemma below_16 d : d < 16 -> In d (map N.of_nat (seq 0 16)).
Proof.
  intros H. rewrite <- (N2Nat.id d). apply in_map, in_seq. lia.
Qed.

Lemma hex_digit_unescaped d : d < 16 -> is_unescaped (hex_digit d) = true.
Proof.
  intros H. apply below_16 in H. revert d H. apply forallb_forall.
  vm_compute. reflexivity.
Qed.

Lemma unhex_hex_digit d : d < 16 -> unhex (hex_digit d) = d.
Proof.
  intros H. apply below_16 in H. apply N.eqb_eq. revert d H.
  apply (proj1 (forallb_forall (fun d => N.eqb (unhex (hex_digit d)) d) _)).
  vm_compute. reflexivity.
Qed.

Lemma percent_chars b :
  b < 256 -> Forall (fun c => is_escaped_text_char c = true) (percent b).
Proof.
  intros H. unfold percent, is_escaped_text_char.
  repeat constructor.
  - rewrite hex_digit_unescaped; [reflexivity|nlia].
  - rewrite hex_digit_unescaped; [reflexivity|nlia].
Qed.

Lemma utf8_octets cp : cp < 1114112 -> Forall (fun b => b < 256) (utf8 cp).
Proof.
  intros H. unfold utf8.
  destruct (N.ltb_spec cp 128); [repeat constructor; lia|].
  destruct (N.ltb_spec cp 2048); [repeat constructor; nlia|].
  destruct (N.ltb_spec cp 65536); repeat constructor; nlia.
Qed.

Lemma escape_code_point_chars cp :
  cp < 1114112 ->
  Forall (fun c => is_escaped_text_char c = true) (escape_code_point cp).
Proof.
  intros H. unfold escape_code_point.
  pose proof (utf8_octets H) as Hb.
  induction Hb as [|b bs Hb _ IH]; [constructor|].
  cbn [flat_map]. apply Forall_app. split; [apply percent_chars, Hb|exact IH].
Qed.

Lemma pair_code_point_range c c2 :
  is_lead c = true -> is_trail c2 = true ->
  65536 <= pair_code_point c c2 < 1114112.
Proof.
  unfold is_lead, is_trail, pair_code_point. intros H1 H2. bools. lia.
Qed.

Lemma list_ind2 {A} (P : list A -> Prop) :
  P [] -> (forall x, P [x]) ->
  (forall x y l, P l -> P (y :: l) -> P (x :: y :: l)) ->
  forall l, P l.
Proof.
  intros H0 H1 H2.
  assert (H : forall l, P l /\ forall x, P (x :: l)).
  { induction l as [|y l [IH1 IH2]]; split; auto. }
  intros l. apply H.
Qed.

Lemma encodeURIComponent_cons c r :
  encodeURIComponent (c :: r) =
  if is_unescaped c then option_map (cons c) (encodeURIComponent r)
  else if is_trail c then None
  else if is_lead c then
    match r with
    | [] => None
    | c2 :: r2 =>
      if is_trail c2
      then option_map (app (escape_code_point (pair_code_point c c2)))
                      (encodeURIComponent r2)
      else None
    end
  else option_map (app (escape_code_point c)) (encodeURIComponent r).
Proof. reflexivity. Qed.

(** An escaped text holds nothing but unescaped characters and percent
    signs. *)
Lemma encodeURIComponent_chars s : forall t,
  code_units s ->
  encodeURIComponent s = Some t ->
  Forall (fun c => is_escaped_text_char c = true) t.
Proof.
  induction s as [|c|c c2 r IH0 IH1] using list_ind2; intros t Hu He.
  - injection He as <-. constructor.
  - cbn [encodeURIComponent] in He. inversion Hu as [|? ? Hc _]; subst.
    destruct (is_unescaped c) eqn:E1.
    { injection He as <-. repeat constructor.
      unfold is_escaped_text_char. rewrite E1. reflexivity. }
    destruct (is_trail c); [discriminate|].
    destruct (is_lead c); [discriminate|].
    injection He as <-. rewrite app_nil_r.
    apply escape_code_point_chars. lia.
  - rewrite encodeURIComponent_cons in He.
    inversion Hu as [|? ? Hc Hu1]; subst.
    inversion Hu1 as [|? ? Hc2 Hu2]; subst.
    destruct (is_unescaped c) eqn:E1.
    { destruct (encodeURIComponent (c2 :: r)) as [t1|] eqn:E; [|discriminate].
      injection He as <-. constructor.
      - unfold is_escaped_text_char. rewrite E1. reflexivity.
      - exact (IH1 t1 Hu1 eq_refl). }
    destruct (is_trail c); [discriminate|].
    destruct (is_lead c) eqn:E3.
    + destruct (is_trail c2) eqn:E4; [|discriminate].
      destruct (encodeURIComponent r) as [t0|] eqn:E; [|discriminate].
      injection He as <-. apply Forall_app. split.
      * apply escape_code_point_chars.
        apply (pair_code_point_range _ _ E3 E4).
      * exact (IH0 t0 Hu2 eq_refl).
    + destruct (encodeURIComponent (c2 :: r)) as [t1|] eqn:E; [|discriminate].
      injection He as <-. apply Forall_app. split.
      * apply escape_code_point_chars. lia.
      * exact (IH1 t1 Hu1 eq_refl).
Qed.

Lemma occurrences_app c a b :
  occurrences c (a ++ b) = (occurrences c a + occurrences c b)%nat.
Proof. unfold occurrences. rewrite filter_app, length_app. reflexivity. Qed.

Lemma occurrences_none c t :
  is_escaped_text_char c = false ->
  Forall (fun x => is_escaped_text_char x = true) t ->
  occurrences c t = 0%nat.
Proof.
  intros Hc Ht. unfold occurrences.
  induction Ht as [|x t Hx _ IH]; [reflexivity|].
  cbn [filter]. destruct (N.eqb_spec c x) as [->|_]; [congruence|exact IH].
Qed.

Lemma split_at_app c a b :
  occurrences c a = 0%nat -> split_at c (a ++ c :: b) = (a, b).
Proof.
  unfold occurrences. induction a as [|x a IH]; intros H.
  - cbn. rewrite N.eqb_refl. reflexivity.
  - cbn [filter] in H. cbn [app split_at].
    destruct (N.eqb_spec c x) as [->|Hne]; [discriminate|].
    destruct (N.eqb_spec x c) as [->|_]; [contradiction|].
    rewrite (IH H). reflexivity.
Qed.

Lemma unescaped_is_ascii c : is_unescaped c = true -> c < 128.
Proof.
  unfold is_unescaped, is_alpha, JSON.is_digit, is_mark.
  cbv -[N.leb N.eqb N.lt orb andb].
  repeat rewrite ?orb_true_iff, ?andb_true_iff, ?N.leb_le, ?N.eqb_eq.
  lia.
Qed.

Lemma unescaped_not_surrogate c :
  is_unescaped c = true -> is_trail c = false /\ is_lead c = false.
Proof.
  intros H. apply unescaped_is_ascii in H. unfold is_trail, is_lead.
  split; apply andb_false_iff; left; apply N.leb_gt; lia.
Qed.

(** [encodeURIComponent] raises its [URIError] exactly on a surrogate
    without its partner. *)
Lemma encodeURIComponent_defined s :
  encodeURIComponent s <> None <-> well_formed s = true.
Proof.
  induction s as [|c|c c2 r IH0 IH1] using list_ind2.
  - cbn. split; [reflexivity|discriminate].
  - cbn. destruct (is_unescaped c) eqn:E1.
    + destruct (unescaped_not_surrogate _ E1) as [-> ->].
      split; [reflexivity|discriminate].
    + destruct (is_trail c); [intuition congruence|].
      destruct (is_lead c); intuition congruence.
  - rewrite encodeURIComponent_cons.
    change (well_formed (c :: c2 :: r)) with
      (if is_trail c then false
       else if is_lead c then is_trail c2 && well_formed r
       else well_formed (c2 :: r)).
    destruct (is_unescaped c) eqn:E1.
    + destruct (unescaped_not_surrogate _ E1) as [-> ->]. rewrite <- IH1.
      destruct (encodeURIComponent (c2 :: r)); cbn; intuition congruence.
    + destruct (is_trail c); [intuition congruence|].
      destruct (is_lead c).
      * destruct (is_trail c2); cbn [andb]; [|intuition congruence].
        rewrite <- IH0.
        destruct (encodeURIComponent r); cbn; intuition congruence.
      * rewrite <- IH1.
        destruct (encodeURIComponent (c2 :: r)); cbn; intuition congruence.
Qed.

Lemma encodeURIComponent_unescaped s :
  forallb is_unescaped s = true -> encodeURIComponent s = Some s.
Proof.
  induction s as [|c r IH]; [reflexivity|].
  cbn [forallb]. intros H. apply andb_prop in H as [Hc Hr].
  rewrite encodeURIComponent_cons, Hc, (IH Hr). reflexivity.
Qed.

(** *** Reading an escaped text back *)

Lemma unescape_plain f c t :
  is_unescaped c = true -> unescape (S f) (c :: t) = c :: unescape f t.
Proof.
  intros H. cbn [unescape].
  destruct (N.eqb_spec c (ch "%")) as [->|_]; [|reflexivity].
  vm_compute in H. discriminate.
Qed.

Lemma octet_percent b :
  b < 256 -> octet (hex_digit (b / 16)) (hex_digit (b mod 16)) = b.
Proof.
  intros H. unfold octet. rewrite !unhex_hex_digit by nlia. nlia.
Qed.

Lemma unescape_percent f h1 h2 r1 :
  unescape (S f) (ch "%" :: h1 :: h2 :: r1) =
  if N.ltb (octet h1 h2) 128 then octet h1 h2 :: unescape f r1
  else if N.ltb (octet h1 h2) 224 then
    match r1 with
    | _ :: h3 :: h4 :: r2 =>
      units_of_code_point ((octet h1 h2 - 192) * 64 + (octet h3 h4 - 128))
        ++ unescape f r2
    | _ => []
    end
  else if N.ltb (octet h1 h2) 240 then
    match r1 with
    | _ :: h3 :: h4 :: _ :: h5 :: h6 :: r2 =>
      units_of_code_point
        ((octet h1 h2 - 224) * 4096 + (octet h3 h4 - 128) * 64
         + (octet h5 h6 - 128))
        ++ unescape f r2
    | _ => []
    end
  else
    match r1 with
    | _ :: h3 :: h4 :: _ :: h5 :: h6 :: _ :: h7 :: h8 :: r2 =>
      units_of_code_point
        ((octet h1 h2 - 240) * 262144 + (octet h3 h4 - 128) * 4096
         + (octet h5 h6 - 128) * 64 + (octet h7 h8 - 128))
        ++ unescape f r2
    | _ => []
    end.
Proof. reflexivity. Qed.

(** One escaped code point, read back, gives its code units. *)
Lemma unescape_code_point f cp t :
  cp < 1114112 ->
  unescape (S f) (escape_code_point cp ++ t)
  = units_of_code_point cp ++ unescape f t.
Proof.
  intros H. unfold escape_code_point, utf8.
  destruct (N.ltb_spec cp 128) as [H1|H1].
  { cbn [flat_map percent app]. rewrite unescape_percent.
    rewrite (octet_percent (b := cp)) by lia.
    destruct (N.ltb_spec cp 128); [|lia]. unfold units_of_code_point.
    destruct (N.ltb_spec cp 65536); [reflexivity|lia]. }
  destruct (N.ltb_spec cp 2048) as [H2|H2].
  { cbn [flat_map percent app]. rewrite unescape_percent.
    rewrite !octet_percent by nlia.
    destruct (N.ltb_spec (192 + cp / 64) 128); [nlia|].
    destruct (N.ltb_spec (192 + cp / 64) 224); [|nlia].
    replace ((192 + cp / 64 - 192) * 64 + (128 + cp mod 64 - 128)) with cp
      by nlia.
    reflexivity. }
  destruct (N.ltb_spec cp 65536) as [H3|H3].
  { cbn [flat_map percent app]. rewrite unescape_percent.
    rewrite !octet_percent by nlia.
    destruct (N.ltb_spec (224 + cp / 4096) 128); [nlia|].
    destruct (N.ltb_spec (224 + cp / 4096) 224); [nlia|].
    destruct (N.ltb_spec (224 + cp / 4096) 240); [|nlia].
    replace ((224 + cp / 4096 - 224) * 4096
             + (128 + (cp / 64) mod 64 - 128) * 64 + (128 + cp mod 64 - 128))
      with cp by nlia.
    reflexivity. }
  cbn [flat_map percent app]. rewrite unescape_percent.
  rewrite !octet_percent by nlia.
  destruct (N.ltb_spec (240 + cp / 262144) 128); [nlia|].
  destruct (N.ltb_spec (240 + cp / 262144) 224); [nlia|].
  destruct (N.ltb_spec (240 + cp / 262144) 240); [nlia|].
  replace ((240 + cp / 262144 - 240) * 262144
           + (128 + (cp / 4096) mod 64 - 128) * 4096
           + (128 + (cp / 64) mod 64 - 128) * 64 + (128 + cp mod 64 - 128))
    with cp by nlia.
  reflexivity.
Qed.

Lemma units_of_pair c c2 :
  is_lead c = true -> is_trail c2 = true ->
  units_of_code_point (pair_code_point c c2) = [c; c2].
Proof.
  unfold is_lead, is_trail, pair_code_point, units_of_code_point.
  intros H1 H2. bools.
  destruct (N.ltb_spec ((c - 55296) * 1024 + (c2 - 56320) + 65536) 65536);
    [lia|].
  f_equal; [nlia|f_equal; nlia].
Qed.

Lemma length_escape_code_point cp : (1 <= length (escape_code_point cp))%nat.
Proof.
  unfold escape_code_point, utf8.
  destruct (N.ltb cp 128); [cbn; lia|].
  destruct (N.ltb cp 2048); [cbn; lia|].
  destruct (N.ltb cp 65536); cbn; lia.
Qed.

(** Reading back what [encodeURIComponent] wrote gives the string it was
    written from. *)
Lemma unescape_encodeURIComponent s : forall t f,
  code_units s ->
  encodeURIComponent s = Some t ->
  (length t <= f)%nat ->
  unescape f t = s.
Proof.
  induction s as [|c|c c2 r IH0 IH1] using list_ind2; intros t f Hu He Hf.
  - injection He as <-. destruct f; reflexivity.
  - cbn [encodeURIComponent] in He. inversion Hu as [|? ? Hc _]; subst.
    destruct (is_unescaped c) eqn:E1.
    { injection He as <-. destruct f as [|f]; [cbn in Hf; lia|].
      rewrite unescape_plain by exact E1. destruct f; reflexivity. }
    destruct (is_trail c); [discriminate|].
    destruct (is_lead c); [discriminate|].
    injection He as <-.
    pose proof (length_escape_code_point c) as Hl.
    rewrite length_app in Hf. destruct f as [|f]; [lia|].
    rewrite unescape_code_point by lia. unfold units_of_code_point.
    destruct (N.ltb_spec c 65536); [|lia]. destruct f; reflexivity.
  - rewrite encodeURIComponent_cons in He.
    inversion Hu as [|? ? Hc Hu1]; subst.
    inversion Hu1 as [|? ? Hc2 Hu2]; subst.
    destruct (is_unescaped c) eqn:E1.
    { destruct (encodeURIComponent (c2 :: r)) as [t1|] eqn:E; [|discriminate].
      injection He as <-. destruct f as [|f]; [cbn in Hf; lia|].
      rewrite unescape_plain by exact E1. f_equal.
      apply (IH1 t1 f Hu1 eq_refl). cbn [length] in Hf. lia. }
    destruct (is_trail c); [discriminate|].
    destruct (is_lead c) eqn:E3.
    + destruct (is_trail c2) eqn:E4; [|discriminate].
      destruct (encodeURIComponent r) as [t0|] eqn:E; [|discriminate].
      injection He as <-.
      pose proof (length_escape_code_point (pair_code_point c c2)) as Hl.
      rewrite length_app in Hf. destruct f as [|f]; [lia|].
      rewrite unescape_code_point
        by (apply (pair_code_point_range _ _ E3 E4)).
      rewrite units_of_pair by assumption. cbn [app]. do 2 f_equal.
      apply (IH0 t0 f Hu2 eq_refl). lia.
    + destruct (encodeURIComponent (c2 :: r)) as [t1|] eqn:E; [|discriminate].
      injection He as <-.
      pose proof (length_escape_code_point c) as Hl.
      rewrite length_app in Hf. destruct f as [|f]; [lia|].
      rewrite unescape_code_point by lia. unfold units_of_code_point.
      destruct (N.ltb_spec c 65536); [|lia]. cbn [app]. f_equal.
      apply (IH1 t1 f Hu1 eq_refl). lia.
Qed.

End URIFacts.

Lemma login_body_fields (email password : jsstring) (r : request) :
  URI.code_units email ->
  URI.code_units password ->
  login_request email password = Some r ->
  exists e p,
    URI.encodeURIComponent email = Some e /\
    URI.encodeURIComponent password = Some p /\
    req_body r = js "username=" ++ e ++ js "&password=" ++ p /\
    split_at (ch "&") (req_body r) = (js "username=" ++ e, js "password=" ++ p).
Proof.
  intros Hue Hup Hr. unfold login_request in Hr.
  destruct (URI.encodeURIComponent email) as [e|] eqn:Ee; [|discriminate].
  destruct (URI.encodeURIComponent password) as [p|] eqn:Ep; [|discriminate].
  remember (js "username=" ++ e ++ js "&password=" ++ p) as body eqn:Eb.
  assert (Er : r = {| req_url := js "/token"; req_method := js "POST";
                      req_headers :=
                        [(js "Content-Type",
                          js "application/x-www-form-urlencoded")];
                      req_body := body |}) by congruence.
  clear Hr. subst r. exists e, p.
  unfold req_body. cbv beta iota. subst body.
  split; [reflexivity|]. split; [reflexivity|]. split; [reflexivity|].
  pose proof (URIFacts.encodeURIComponent_chars Hue Ee) as He.
  rewrite app_assoc.
  change (js "&password=" ++ p) with (ch "&" :: js "password=" ++ p).
  apply URIFacts.split_at_app.
  rewrite URIFacts.occurrences_app.
  rewrite (@URIFacts.occurrences_none (ch "&") e eq_refl He). reflexivity.
Qed.

(** X15. The body [login] posts is [username=E&password=P] where [E] and
    [P] are the escaped e-mail and password; whatever the user typed, the
    body has exactly one [&] and exactly two [=], so cutting it at the [&]
    gives back the two fields: credentials cannot smuggle in a field of
    their own.  The request is always a [POST] to [/token] with the
    form-encoded content type. *)
Theorem login_body_has_two_fields (email password : jsstring) (r : request) :
  URI.code_units email ->
  URI.code_units password ->
  login_request email password = Some r ->
  exists e p,
    URI.encodeURIComponent email = Some e /\
    URI.encodeURIComponent password = Some p /\
    req_body r = js "username=" ++ e ++ js "&password=" ++ p /\
    occurrences (ch "&") (req_body r) = 1 /\
    occurrences (ch "=") (req_body r) = 2 /\
    split_at (ch "&") (req_body r) = (js "username=" ++ e, js "password=" ++ p) /\
    req_url r = js "/token" /\
    req_method r = js "POST" /\
    req_headers r
    = [(js "Content-Type", js "application/x-www-form-urlencoded")].
Proof.
  intros Hue Hup Hr. unfold login_request in Hr.
  destruct (URI.encodeURIComponent email) as [e|] eqn:Ee; [|discriminate].
  destruct (URI.encodeURIComponent password) as [p|] eqn:Ep; [|discriminate].
  remember (js "username=" ++ e ++ js "&password=" ++ p) as body eqn:Eb.
  assert (Er : r = {| req_url := js "/token"; req_method := js "POST";
                      req_headers :=
                        [(js "Content-Type",
                          js "application/x-www-form-urlencoded")];
                      req_body := body |}) by congruence.
  clear Hr. subst r. exists e, p.
  unfold req_body, req_url, req_method, req_headers. cbv beta iota.
  subst body.
  pose proof (URIFacts.encodeURIComponent_chars Hue Ee) as He.
  pose proof (URIFacts.encodeURIComponent_chars Hup Ep) as Hp.
  assert (Ha : forall c, URI.is_escaped_text_char c = false ->
             occurrences c e = 0 /\ occurrences c p = 0)
    by (intros c Hc; split; apply URIFacts.occurrences_none; assumption).
  destruct (Ha (ch "&") eq_refl) as [Hae Hap].
  destruct (Ha (ch "=") eq_refl) as [Hee Hep].
  split; [reflexivity|]. split; [reflexivity|]. split; [reflexivity|].
  split; [|split; [|split; [|repeat split]]].
  - rewrite !URIFacts.occurrences_app, Hae, Hap. reflexivity.
  - rewrite !URIFacts.occurrences_app, Hee, Hep. reflexivity.
  - rewrite app_assoc.
    change (js "&password=" ++ p) with (ch "&" :: js "password=" ++ p).
    apply URIFacts.split_at_app.
    rewrite URIFacts.occurrences_app, Hae. reflexivity.
Qed.

Lemma sample_code_units :
  URI.code_units sample_email /\ URI.code_units sample_password.
Proof.
  split; apply Forall_forall; intros c Hc; apply N.ltb_lt;
    revert c Hc; apply forallb_forall; vm_compute; reflexivity.
Qed.

Lemma sample_request_sent :
  login_request sample_email sample_password = Some sample_request.
Proof. vm_compute. reflexivity. Qed.

Lemma login_body_has_two_fields_witness :
  URI.code_units sample_email /\
  URI.code_units sample_password /\
  login_request sample_email sample_password = Some sample_request /\
  occurrences (ch "&") (req_body sample_request) = 1 /\
  occurrences (ch "=") (req_body sample_request) = 2.
Proof.
  destruct sample_code_units as [H1 H2].
  destruct (@login_body_has_two_fields _ _ _ H1 H2 sample_request_sent)
    as (e & p & _ & _ & _ & Hamp & Heq & _).
  split; [exact H1|]. split; [exact H2|].
  split; [exact sample_request_sent|]. split; [exact Hamp|exact Heq].
Defined.

(** X16. [login] sends its request exactly when neither field holds a
    surrogate without its partner; otherwise building the body throws a
    [URIError] and nothing is sent. *)
Theorem login_request_sent_iff_well_formed (email password : jsstring) :
  login_request email password <> None <->
  URI.well_formed email = true /\ URI.well_formed password = true.
Proof.
  unfold login_request.
  rewrite <- !URIFacts.encodeURIComponent_defined.
  destruct (URI.encodeURIComponent email);
    destruct (URI.encodeURIComponent password); intuition congruence.
Qed.

(** X17. Fields made only of letters, digits and [- _ . ! ~ * ' ( )] go
    into the body as they are; empty fields are sent too, as
    [username=&password=], for the script checks nothing before sending. *)
Theorem login_request_plain_fields (email password : jsstring) :
  forallb URI.is_unescaped email = true ->
  forallb URI.is_unescaped password = true ->
  login_request email password
  = Some {| req_url := js "/token";
            req_method := js "POST";
            req_headers :=
              [(js "Content-Type", js "application/x-www-form-urlencoded")];
            req_body := js "username=" ++ email ++ js "&password=" ++ password |}.
Proof.
  intros He Hp. unfold login_request.
  rewrite (URIFacts.encodeURIComponent_unescaped _ He).
  rewrite (URIFacts.encodeURIComponent_unescaped _ Hp). reflexivity.
Qed.

Lemma login_request_plain_fields_witness :
  forallb URI.is_unescaped [] = true /\
  option_map req_body (login_request [] []) = Some (js "username=&password=").
Proof.
  split; [reflexivity|].
  rewrite (@login_request_plain_fields [] [] eq_refl eq_refl). reflexivity.
Defined.

(** X18. The body determines the credentials: two pairs of e-mail and
    password that lead to the same body are the same pair, so what the
    server reads is what the user typed.  Each escaped field, read back,
    is the field. *)
Theorem login_body_determines_credentials
    (email password email' password' : jsstring) (r r' : request) :
  URI.code_units email -> URI.code_units password ->
  URI.code_units email' -> URI.code_units password' ->
  login_request email password = Some r ->
  login_request email' password' = Some r' ->
  req_body r = req_body r' ->
  email = email' /\ password = password'.
Proof.
  intros Hue Hup Hue' Hup' Hr Hr' Hb.
  destruct (login_body_fields Hue Hup Hr) as (e & p & Ee & Ep & Eb & Es).
  destruct (login_body_fields Hue' Hup' Hr') as (e' & p' & Ee' & Ep' & Eb' & Es').
  rewrite Hb, Es' in Es.
  assert (He : js "username=" ++ e' = js "username=" ++ e) by congruence.
  assert (Hp : js "password=" ++ p' = js "password=" ++ p) by congruence.
  apply app_inv_head in He. apply app_inv_head in Hp. subst e' p'.
  split.
  - rewrite <- (URIFacts.unescape_encodeURIComponent Hue Ee (le_n _)).
    exact (URIFacts.unescape_encodeURIComponent Hue' Ee' (le_n _)).
  - rewrite <- (URIFacts.unescape_encodeURIComponent Hup Ep (le_n _)).
    exact (URIFacts.unescape_encodeURIComponent Hup' Ep' (le_n _)).
Qed.

Lemma login_request_sent_iff_well_formed_witness :
  URI.well_formed sample_email = true /\
  URI.well_formed sample_password = true /\
  login_request sample_email sample_password <> None.
Proof.
  split; [reflexivity|]. split; [reflexivity|].
  exact (proj2 (login_request_sent_iff_well_formed sample_email sample_password)
           (conj eq_refl eq_refl)).
Defined.

Lemma login_body_determines_credentials_witness :
  URI.code_units sample_email /\
  URI.code_units sample_password /\
  login_request sample_email sample_password = Some sample_request /\
  sample_email = sample_email /\ sample_password = sample_password.
Proof.
  destruct sample_code_units as [H1 H2].
  split; [exact H1|]. split; [exact H2|].
  split; [exact sample_request_sent|].
  exact (@login_body_determines_credentials _ _ _ _ _ _ H1 H2 H1 H2
           sample_request_sent sample_request_sent eq_refl).
Defined.

(** ** Timers *)

(** X19. The script never cancels a reconnect: as long as no timer fires,
    every pending timer stays pending, in its place, and each close event
    adds one timer with the delay of 5000 ms behind them. *)
Theorem reconnects_are_never_cancelled (evs : list event) (s s' : page) :
  run evs s = Some s' ->
  count_events is_fire evs = 0 ->
  exists added,
    timeouts s' = timeouts s ++ added /\
    length added = count_events is_close evs /\
    Forall (fun t => timeout_delay t = 5000%Z) added.
Proof.
  unfold count_events. revert s s'.
  induction evs as [|ev evs IH]; intros s s' Hr Hf.
  - cbn in Hr. injection Hr as <-. exists []. rewrite app_nil_r.
    repeat split. constructor.
  - cbn [run] in Hr. destruct (step ev s) as [s1|] eqn:Hs; [|discriminate].
    cbn [filter] in Hf.
    destruct (is_fire ev) eqn:Efire; [discriminate|].
    destruct (IH s1 s' Hr Hf) as (added & Ht & Hl & Hd).
    apply step_effect in Hs.
    destruct ev as [st b|i|i d|i|i|j|ms]; try discriminate Efire;
      cbn [filter is_close length].
    + destruct Hs as (E & _). exists added. rewrite Ht, E. auto.
    + destruct Hs as (w & _ & _ & _ & E & _). exists added.
      rewrite Ht, E. auto.
    + destruct Hs as (w & _ & _ & _ & E & _). exists added.
      rewrite Ht, E. auto.
    + destruct Hs as (w & _ & _ & _ & E & _). exists added.
      rewrite Ht, E. auto.
    + destruct Hs as (w & _ & _ & _ & E & _).
      exists ({| timeout_set_at := clock s; timeout_delay := 5000 |} :: added).
      rewrite Ht, E, <- app_assoc. cbn [app length].
      repeat split; [congruence|]. constructor; [reflexivity|exact Hd].
    + destruct Hs as (_ & _ & E & _). exists added. rewrite Ht, E. auto.
Qed.

Lemma reconnects_are_never_cancelled_witness :
  run reconnect_trace logged_in_page = Some after_reconnect_trace /\
  count_events is_fire reconnect_trace = 0 /\
  length (timeouts after_reconnect_trace) = 1.
Proof.
  assert (Hr : run reconnect_trace logged_in_page = Some after_reconnect_trace)
    by reflexivity.
  split; [exact Hr|]. split; [reflexivity|].
  destruct (@reconnects_are_never_cancelled _ _ _ Hr eq_refl)
    as (added & Ht & Hl & _).
  rewrite Ht, length_app, Hl. reflexivity.
Defined.
